(** * Nl2SQL-Backend: the question-to-SQL pipeline of [assistant/langchain_logic.py]

    A shallow embedding of the pipeline and of the HTTP view that calls it,
    with the properties of the SQL sanitizer, the query executor, the session
    memory store, the schema cache and the orchestrator.

    Python strings are sequences of Unicode code points: a character is a
    code point in [N], a string a list of them.  External collaborators (the
    database handle and the language model) are oracles indexed by the
    number of external events that happened before the call. *)

From Stdlib Require Import NArith.
From stdpp Require Import gmap strings list fin_maps.

Local Open Scope N_scope.

(** ** Strings *)

Abbreviation char := N (only parsing).
Abbreviation str := (list N) (only parsing).

(** A literal of the source, as code points. *)
Fixpoint lit (s : string) : str :=
  match s with
  | EmptyString => []
  | String a r => Ascii.N_of_ascii a :: lit r
  end.

Definition nl : char := 10.
Definition backtick : char := 96.

(** [str.isspace] on one code point: the table of CPython's
    [_PyUnicode_IsWhitespace]. *)
Definition isspace (c : char) : bool :=
  ((9 <=? c) && (c <=? 13)) || ((28 <=? c) && (c <=? 32))
  || (c =? 133) || (c =? 160) || (c =? 5760)
  || ((8192 <=? c) && (c <=? 8202))
  || (c =? 8232) || (c =? 8233) || (c =? 8239) || (c =? 8287) || (c =? 12288).

Fixpoint lstrip (s : str) : str :=
  match s with
  | [] => []
  | c :: t => if isspace c then lstrip t else s
  end.

Definition rstrip (s : str) : str := rev (lstrip (rev s)).

(** [s.strip()] *)
Definition strip (s : str) : str := rstrip (lstrip s).

(** [s.startswith(p)] *)
Fixpoint starts_with (p s : str) : bool :=
  match p, s with
  | [], _ => true
  | _ :: _, [] => false
  | a :: p', b :: s' => (a =? b) && starts_with p' s'
  end.

(** ** Leftmost scanning replacement

    [re.sub] with an alternation of literals and [str.replace] both scan the
    text from the left; at each position the alternatives are tried in the
    order they are written, the first one that matches is replaced and the
    scan resumes after it.  All patterns of this program are non-empty. *)

Fixpoint first_rule (rules : list (str * str)) (s : str) : option (str * str) :=
  match rules with
  | [] => None
  | (old, new) :: rest =>
      if starts_with old s then Some (old, new) else first_rule rest s
  end.

(** [skip] counts the characters of the current match still to be consumed. *)
Fixpoint scan (rules : list (str * str)) (skip : nat) (s : str) : str :=
  match s with
  | [] => []
  | c :: t =>
      match skip with
      | S n => scan rules n t
      | O =>
          match first_rule rules s with
          | Some (old, new) => new ++ scan rules (length old - 1) t
          | None => c :: scan rules 0 t
          end
      end
  end.

(** [s.replace(old, new)] *)
Definition replace (old new : str) (s : str) : str := scan [(old, new)] 0 s.

Definition fence : str := lit "```".
Definition fence_sql : str := lit "```sql".

(** [re.sub(r"```sql|```", "", s)] *)
Definition re_sub_fences (s : str) : str := scan [(fence_sql, []); (fence, [])] 0 s.

(** ** Splitting at a keyword line *)

Definition keywords : list str :=
  [lit "SELECT"; lit "WITH"; lit "INSERT"; lit "UPDATE"; lit "DELETE"].

(** The lookahead [(?=SELECT|WITH|INSERT|UPDATE|DELETE)]. *)
Definition starts_with_keyword (s : str) : bool :=
  existsb (fun k => starts_with k s) keywords.

(** The pattern [\n(?=SELECT|WITH|INSERT|UPDATE|DELETE)] matches at the head
    of [s]. *)
Definition boundary_here (s : str) : bool :=
  match s with
  | [] => false
  | c :: t => (c =? nl) && starts_with_keyword t
  end.

(** [re.split(pattern, s, maxsplit)] for a positive [maxsplit]: at most
    [maxsplit] splits, at the leftmost matches; the rest of the text is the
    last piece. *)
Fixpoint re_split (s : str) (maxsplit : nat) {struct s} : list str :=
  match maxsplit with
  | O => [s]
  | S m =>
      match s with
      | [] => [[]]
      | c :: t =>
          if boundary_here s then [] :: re_split t m
          else
            match re_split t maxsplit with
            | piece :: pieces => (c :: piece) :: pieces
            | [] => [[c]]
            end
      end
  end.

(** ** Results and exceptions *)

(** An exception is an instance of [Exception], represented by its message
    [str(e)]; what [except Exception] does not catch ([KeyboardInterrupt],
    [SystemExit]) is not modelled. *)
Inductive Res (A : Type) : Type :=
  | Ok (a : A)
  | Raise (e : str).
Arguments Ok {A} a.
Arguments Raise {A} e.

(** [l[-1]]: the last element, [IndexError] on an empty list. *)
Fixpoint index_last {A} (l : list A) : Res A :=
  match l with
  | [] => Raise (lit "list index out of range")
  | [x] => Ok x
  | _ :: t => index_last t
  end.

(** ** The SQL sanitizer *)

(** The text the split is applied to: lines 84 and 85 of the source. *)
Definition fence_free (sql : str) : str := strip (re_sub_fences (strip sql)).

Definition clean_sql_output (sql : str) : Res str :=
  let sql := strip sql in
  let sql := strip (re_sub_fences sql) in
  match index_last (re_split sql 1) with
  | Ok sql => Ok (strip sql)
  | Raise e => Raise e
  end.

Definition corrections : list (str * str) :=
  [ (lit "customer_id", lit "customerNumber");
    (lit "order_id", lit "orderNumber");
    (lit "order_details", lit "orderdetails");
    (lit "product_id", lit "productCode");
    (lit "products.price", lit "products.buyPrice") ].

(** The loop over [corrections.items()], in insertion order. *)
Definition correct_common_sql_errors (query : str) : str :=
  fold_left (fun q '(wrong, fixed) => replace wrong fixed q) corrections query.

(** ** Python values that cross the HTTP boundary

    A field of the JSON body is a string or is missing; [dict.get] without a
    default then yields [None]. *)
Inductive pyval : Type :=
  | PyNone
  | PyStr (s : str).

#[global] Instance pyval_eq_dec : EqDecision pyval.
Proof. solve_decision. Defined.

#[global] Instance pyval_countable : Countable pyval.
Proof.
  apply (inj_countable'
           (fun v => match v with PyNone => None | PyStr s => Some s end)
           (fun o => match o with None => PyNone | Some s => PyStr s end)).
  intros []; reflexivity.
Defined.

(** ** Process state *)

(** A turn of a session transcript. *)
Inductive message : Type :=
  | HumanMessage (content : pyval)
  | AIMessage (content : str).

(** What the language model is asked: the SQL template filled with the
    schema, the chat history and the question, or [answer_prompt] filled
    with question, query and result. *)
Inductive prompt : Type :=
  | SqlPrompt (schema : str) (chat_history : list message) (question : pyval)
  | AnswerPrompt (question : pyval) (query result : str).

(** The calls that leave the process, in the order they are issued. *)
Inductive event : Type :=
  | Introspect
  | Run (query : str)
  | Model (p : prompt)
  | Stdout (text : str).

(** The identity of a [ChatMessageHistory] object. *)
Abbreviation handle := nat (only parsing).

Record state : Type := mkState {
  store : gmap pyval nat;
  heap : list (list message);
  schema_cache : option str;
  trace : list event
}.

Definition initial_state : state := mkState ∅ [] None [].

Definition set_store (f : gmap pyval nat → gmap pyval nat) (st : state) : state :=
  mkState (f (store st)) (heap st) (schema_cache st) (trace st).
Definition set_heap (f : list (list message) → list (list message)) (st : state) : state :=
  mkState (store st) (f (heap st)) (schema_cache st) (trace st).
Definition set_schema_cache (c : option str) (st : state) : state :=
  mkState (store st) (heap st) c (trace st).
Definition set_trace (f : list event → list event) (st : state) : state :=
  mkState (store st) (heap st) (schema_cache st) (f (trace st)).

(** The transcript a session key leads to. *)
Definition transcript (st : state) (key : pyval) : option (list message) :=
  match store st !! key with
  | Some h => heap st !! h
  | None => None
  end.

(** Every object the store refers to exists, and no object is the
    transcript of two sessions. *)
Definition wf (st : state) : Prop :=
  (∀ key h, store st !! key = Some h → (h < length (heap st))%nat) ∧
  (∀ k1 k2 h, store st !! k1 = Some h → store st !! k2 = Some h → k1 = k2).

(** Exceptions propagate; the mutations made before them stay. *)
Definition M (A : Type) : Type := state → Res A * state.

Definition ret {A} (a : A) : M A := fun st => (Ok a, st).

Definition bind {A B} (m : M A) (f : A → M B) : M B := fun st =>
  match m st with
  | (Ok a, st') => f a st'
  | (Raise e, st') => (Raise e, st')
  end.

(** [try: m  except Exception as e: h e] *)
Definition try_except {A} (m : M A) (h : str → M A) : M A := fun st =>
  match m st with
  | (Ok a, st') => (Ok a, st')
  | (Raise e, st') => h e st'
  end.

Definition lift {A} (r : Res A) : M A := fun st => (r, st).

Notation "'let*' x ':=' m 'in' k" := (bind m (fun x => k))
  (at level 10, x binder, m at level 100, k at level 200, only parsing).

Definition print (text : str) : M unit := fun st =>
  (Ok tt, set_trace (fun t => t ++ [Stdout text]) st).

(** *** Session memory *)

Definition get_memory (session_id : pyval) : M nat :=
  let* _ := (fun st =>
     if decide (store st !! session_id = None)
     then (Ok tt, set_store (<[session_id := length (heap st)]>)
                    (set_heap (fun h => h ++ [[]]) st))
     else (Ok tt, st)) in
  (fun st =>
     match store st !! session_id with
     | Some h => (Ok h, st)
     | None => (Raise (lit "KeyError"), st)
     end).

(** [history.messages] *)
Definition messages (h : nat) : M (list message) := fun st =>
  (Ok (default [] (heap st !! h)), st).

(** [history.add_messages(ms)]: the object is changed in place. *)
Definition add_messages (h : nat) (ms : list message) : M unit := fun st =>
  (Ok tt, set_heap (alter (fun old => old ++ ms) h) st).

(** *** The pipeline, over its external collaborators *)

(** What the result of a query is: the value [db.run] returned, or a
    one-entry dict. *)
Inductive query_result (Value : Type) : Type :=
  | Rows (v : Value)
  | Dict (key value : str).
Arguments Rows {Value} v.
Arguments Dict {Value} key value.

(** The database handle, the language model and two built-ins, as functions
    of the number of external events before the call. *)
Record world (Value : Type) : Type := mkWorld {
  truthy : Value → bool;
  py_str : query_result Value → str;
  db_get_table_info : nat → Res str;
  db_run : nat → str → Res Value;
  llm : nat → prompt → Res str
}.
Arguments truthy {Value} w v.
Arguments py_str {Value} w r.
Arguments db_get_table_info {Value} w t.
Arguments db_run {Value} w t q.
Arguments llm {Value} w t p.

Section Pipeline.
Context {Value : Type} (w : world Value).

Definition table_info_call : M str := fun st =>
  (db_get_table_info w (length (trace st)),
   set_trace (fun t => t ++ [Introspect]) st).

Definition run_call (query : str) : M Value := fun st =>
  (db_run w (length (trace st)) query,
   set_trace (fun t => t ++ [Run query]) st).

Definition llm_call (p : prompt) : M str := fun st =>
  (llm w (length (trace st)) p,
   set_trace (fun t => t ++ [Model p]) st).

(** [@lru_cache()] on a function without arguments: a result is kept,
    an exception is not. *)
Definition get_schema_description : M str := fun st =>
  match schema_cache st with
  | Some description => (Ok description, st)
  | None =>
      (let* description := table_info_call in
       let* _ := (fun st' => (Ok tt, set_schema_cache (Some description) st')) in
       ret description) st
  end.

(** The template is the SQL prompt with its schema filled in. *)
Definition build_sql_prompt : M (list message → pyval → prompt) :=
  let* schema := get_schema_description in
  ret (SqlPrompt schema).

(** Modelled from the spec: [RunnableWithMessageHistory.invoke] belongs to
    the langchain library; it loads the transcript of the session through
    [get_session_history], fills the template with it and the question,
    calls the model, and appends the exchange to the transcript. *)
Definition memory_chain_invoke (sql_prompt : list message → pyval → prompt)
    (question session_id : pyval) : M str :=
  let* history := get_memory session_id in
  let* chat_history := messages history in
  let* raw := llm_call (sql_prompt chat_history question) in
  let* _ := add_messages history [HumanMessage question; AIMessage raw] in
  ret raw.

Definition execute_query (query : str) : M (query_result Value) :=
  try_except
    (let* _ := print ([nl] ++ lit "Executing SQL Query:" ++ [nl] ++ query) in
     let* result := run_call query in
     ret (if truthy w result then Rows result
          else Dict (lit "info") (lit "No results found.")))
    (fun e =>
       let* _ := print ([nl] ++ lit "SQL Execution Error: " ++ e) in
       ret (Dict (lit "error") (lit "Query failed: " ++ e))).

(** [rephrase_chain.invoke] *)
Definition rephrase_chain_invoke (question : pyval) (query result : str) : M str :=
  llm_call (AnswerPrompt question query result).

(** [session_id] is [None] when the caller leaves the argument out. *)
Definition process_question (question : pyval) (session_id : option pyval) : M str :=
  let session_id := default (PyStr (lit "user-1")) session_id in
  let* sql_prompt := build_sql_prompt in
  let* raw_sql := memory_chain_invoke sql_prompt question session_id in
  let* clean_query := lift (clean_sql_output raw_sql) in
  let clean_query := correct_common_sql_errors clean_query in
  let* sql_result := execute_query clean_query in
  rephrase_chain_invoke question clean_query (py_str w sql_result).

(** [AskQuestion.post]: [request.data] is the JSON body; the response
    body is [{"answer": answer}]. *)
Definition post (data : gmap str pyval) : M (gmap str str) :=
  let question := default PyNone (data !! lit "question") in
  let session_id := default (PyStr (lit "default-session")) (data !! lit "session_id") in
  let* answer := process_question question (Some session_id) in
  ret {[ lit "answer" := answer ]}.

(** [n] calls of [get_schema_description], one after the other; a call
    that raises does not stop the ones after it. *)
Fixpoint schema_calls (n : nat) (st : state) : list (Res str) * state :=
  match n with
  | O => ([], st)
  | S m =>
      let '(r, st1) := get_schema_description st in
      let '(rs, st2) := schema_calls m st1 in
      (r :: rs, st2)
  end.
End Pipeline.

(** The introspection calls among the events. *)
Definition introspections (t : list event) : nat :=
  length (omap (fun e => match e with Introspect => Some tt | _ => None end) t).

(** The statements sent to the database, in order. *)
Definition executed (t : list event) : list str :=
  omap (fun e => match e with Run q => Some q | _ => None end) t.

(** ** Predicates used in the statements *)

(** [p in s]: [p] occurs in [s] as a substring. *)
Fixpoint contains (p s : str) : bool :=
  starts_with p s ||
  match s with
  | [] => false
  | _ :: t => contains p t
  end.

(** [s] has a newline immediately followed by one of the keywords. *)
Fixpoint has_keyword_line (s : str) : bool :=
  boundary_here s ||
  match s with
  | [] => false
  | _ :: t => has_keyword_line t
  end.

(** The number of backticks [s] begins with. *)
Fixpoint lead (s : str) : nat :=
  match s with
  | [] => O
  | c :: t => if c =? backtick then S (lead t) else O
  end.

(** One of [u], [v] is a prefix of the other: an occurrence of [u] can
    begin where [v] begins, whatever follows [v]. *)
Definition clash (u v : str) : bool := starts_with u v || starts_with v u.

(** The non-empty suffixes of [s]. *)
Fixpoint tails (s : str) : list str :=
  match s with
  | [] => []
  | _ :: t => s :: tails t
  end.

(** No occurrence of [old] can begin inside [m]. *)
Definition apart_in (old m : str) : bool :=
  forallb (fun u => negb (clash old u)) (tails m).

(** No occurrence of [old] that began before [m] can reach into [m]. *)
Definition apart_out (old m : str) : bool :=
  forallb (fun u => negb (clash u m)) (tails (tail old)).

(** ** Sample collaborators

    [db.run] returns text, empty when there are no rows; the dict is shown
    the way Python shows a dict of plain strings. *)

Definition sample_truthy (v : str) : bool :=
  match v with
  | [] => false
  | _ :: _ => true
  end.

Definition sample_py_str (r : query_result str) : str :=
  match r with
  | Rows v => v
  | Dict key value => lit "{'" ++ key ++ lit "': '" ++ value ++ lit "'}"
  end.

Definition sample_schema : str :=
  lit "CREATE TABLE customers (customerNumber int, customerName varchar(50))".

(** The model wraps its statement in a fence and names a column that does
    not exist. *)
Definition sample_llm (t : nat) (p : prompt) : Res str :=
  match p with
  | SqlPrompt _ _ _ =>
      Ok (lit "```sql" ++ nl :: lit "SELECT customerName FROM clients WHERE customer_id = 103;"
            ++ nl :: lit "```")
  | AnswerPrompt _ _ result => Ok (lit "The query could not be run: " ++ result)
  end.

(** A database without the table the statement names. *)
Definition sample_world : world str :=
  mkWorld str sample_truthy sample_py_str
    (fun _ => Ok sample_schema)
    (fun _ _ => Raise (lit "Table 'classicmodels.clients' doesn't exist"))
    sample_llm.

(** A database that cannot be reached when the first call is made. *)
Definition flaky_world : world str :=
  mkWorld str sample_truthy sample_py_str
    (fun t => match t with
              | O => Raise (lit "Can't connect to MySQL server")
              | S _ => Ok sample_schema
              end)
    (fun _ _ => Ok (lit "[(1,)]"))
    sample_llm.

(** The calls of the language model among the events. *)
Definition model_calls (t : list event) : nat :=
  length (omap (fun e => match e with Model p => Some p | _ => None end) t).

(** A model that cannot be reached. *)
Definition mute_world : world str :=
  mkWorld str sample_truthy sample_py_str
    (fun _ => Ok sample_schema)
    (fun _ _ => Ok (lit "[(1,)]"))
    (fun _ _ => Raise (lit "Connection error."))
.

(** A model that writes the statement and fails when asked to rephrase. *)
Definition tired_world : world str :=
  mkWorld str sample_truthy sample_py_str
    (fun _ => Ok sample_schema)
    (fun _ _ => Ok (lit "[(1,)]"))
    (fun _ p =>
       match p with
       | SqlPrompt _ _ _ => Ok (lit "SELECT 1;")
       | AnswerPrompt _ _ _ => Raise (lit "Rate limit reached.")
       end).

Example clean_fenced :
  clean_sql_output (lit "```sql" ++ [nl] ++ lit "SELECT customerName FROM customers WHERE country = 'France';" ++ [nl] ++ lit "```")
  = Ok (lit "SELECT customerName FROM customers WHERE country = 'France';").
Proof. vm_compute. reflexivity. Qed.

Example clean_two_statements :
  clean_sql_output (lit "x" ++ [nl] ++ lit "SELECT 1;" ++ [nl] ++ lit "SELECT 2;")
  = Ok (lit "SELECT 1;" ++ [nl] ++ lit "SELECT 2;").
Proof. vm_compute. reflexivity. Qed.

Example clean_leading_newline :
  clean_sql_output ([nl] ++ lit "SELECT 1" ++ [nl] ++ lit "SELECT 2") = Ok (lit "SELECT 2").
Proof. vm_compute. reflexivity. Qed.

Example clean_sqlite : clean_sql_output (lit "```sqlite" ++ [nl] ++ lit "```") = Ok (lit "ite").
Proof. vm_compute. reflexivity. Qed.

Example correct_customer_id :
  correct_common_sql_errors (lit "SELECT customer_id, order_id FROM order_details")
  = lit "SELECT customerNumber, orderNumber FROM orderdetails".
Proof. vm_compute. reflexivity. Qed.

(** ** Prefixes and substrings *)

#[local] Arguments N.eqb : simpl never.
#[local] Arguments N.leb : simpl never.

Lemma starts_with_app (p b : str) : starts_with p (p ++ b) = true.
Proof.
  induction p as [|a p IH]; simpl; [reflexivity|].
  rewrite N.eqb_refl. exact IH.
Qed.

Lemma starts_with_spec (p s : str) :
  starts_with p s = true ↔ ∃ b, s = p ++ b.
Proof.
  split.
  - revert s. induction p as [|a p IH]; intros s H.
    + exists s. reflexivity.
    + destruct s as [|c s]; simpl in H; [discriminate|].
      apply andb_prop in H as [Hc Hs]. apply N.eqb_eq in Hc. subst c.
      destruct (IH _ Hs) as [b ->]. exists b. reflexivity.
  - intros [b ->]. apply starts_with_app.
Qed.

Lemma contains_unfold (p s : str) :
  contains p s = starts_with p s || match s with [] => false | _ :: t => contains p t end.
Proof. destruct s; reflexivity. Qed.

Lemma contains_spec (p s : str) :
  contains p s = true ↔ ∃ a b, s = a ++ p ++ b.
Proof.
  split.
  - induction s as [|c s IH]; simpl; intros H.
    + apply orb_prop in H as [H|H]; [|discriminate].
      apply starts_with_spec in H as [b Hb]. exists [], b. exact Hb.
    + apply orb_prop in H as [H|H].
      * apply starts_with_spec in H as [b Hb]. exists [], b. exact Hb.
      * destruct (IH H) as (a & b & ->). exists (c :: a), b. reflexivity.
  - intros (a & b & ->). induction a as [|c a IH].
    + rewrite app_nil_l, contains_unfold, starts_with_app. reflexivity.
    + rewrite contains_unfold. simpl. rewrite IH. apply orb_true_r.
Qed.

Lemma contains_false_factor (p s a x b : str) :
  contains p s = false → s = a ++ x ++ b → contains p x = false.
Proof.
  intros Hs ->. destruct (contains p x) eqn:E; [|reflexivity].
  apply contains_spec in E as (a' & b' & ->).
  rewrite <- Hs. symmetry. apply contains_spec.
  exists (a ++ a'), (b' ++ b). rewrite <- !app_assoc. reflexivity.
Qed.

Lemma has_keyword_line_spec (s : str) :
  has_keyword_line s = true ↔
  ∃ a b, s = a ++ nl :: b ∧ starts_with_keyword b = true.
Proof.
  split.
  - induction s as [|c s IH]; simpl; intros H; [discriminate|].
    apply orb_prop in H as [H|H].
    + apply andb_prop in H as [Hc Hk]. apply N.eqb_eq in Hc. subst c.
      exists [], s. split; [reflexivity | exact Hk].
    + destruct (IH H) as (a & b & -> & Hk). exists (c :: a), b.
      split; [reflexivity | exact Hk].
  - intros (a & b & -> & Hk). induction a as [|c a IH].
    + simpl. rewrite Hk. reflexivity.
    + change (has_keyword_line ((c :: a) ++ nl :: b))
        with (boundary_here ((c :: a) ++ nl :: b) || has_keyword_line (a ++ nl :: b)).
      rewrite IH. apply orb_true_r.
Qed.

Lemma has_keyword_line_factor (s a x b : str) :
  has_keyword_line s = false → s = a ++ x ++ b → has_keyword_line x = false.
Proof.
  intros Hs ->. destruct (has_keyword_line x) eqn:E; [|reflexivity].
  apply has_keyword_line_spec in E as (a' & b' & -> & Hk).
  rewrite <- Hs. symmetry. apply has_keyword_line_spec.
  exists (a ++ a'), (b' ++ b). split.
  - rewrite <- !app_assoc. reflexivity.
  - unfold starts_with_keyword in *. apply existsb_exists in Hk as (k & Hin & Hk).
    apply existsb_exists. exists k. split; [exact Hin|].
    apply starts_with_spec in Hk as [r ->]. rewrite <- app_assoc.
    apply starts_with_app.
Qed.

(** ** Trimming *)

Lemma lstrip_suffix (s : str) : ∃ a, s = a ++ lstrip s.
Proof.
  induction s as [|c s [a IH]]; simpl.
  - exists []. reflexivity.
  - destruct (isspace c).
    + exists (c :: a). simpl. f_equal. exact IH.
    + exists []. reflexivity.
Qed.

Lemma lstrip_idem (s : str) : lstrip (lstrip s) = lstrip s.
Proof.
  induction s as [|c s IH]; simpl; [reflexivity|].
  destruct (isspace c) eqn:E; [exact IH|]. simpl. rewrite E. reflexivity.
Qed.

Lemma lstrip_snoc (s : str) (c : N) :
  isspace c = false → lstrip (s ++ [c]) = lstrip s ++ [c].
Proof.
  intros Hc. induction s as [|d s IH]; simpl.
  - rewrite Hc. reflexivity.
  - destruct (isspace d); [exact IH | reflexivity].
Qed.

Lemma rstrip_cons (c : N) (s : str) :
  isspace c = false → rstrip (c :: s) = c :: rstrip s.
Proof.
  intros Hc. unfold rstrip. simpl. rewrite lstrip_snoc by exact Hc.
  rewrite rev_app_distr. reflexivity.
Qed.

Lemma rstrip_snoc (s : str) (c : N) :
  isspace c = false → rstrip (s ++ [c]) = s ++ [c].
Proof.
  intros Hc. unfold rstrip. rewrite rev_app_distr. simpl. rewrite Hc.
  simpl. rewrite rev_involutive. reflexivity.
Qed.

Lemma rstrip_idem (s : str) : rstrip (rstrip s) = rstrip s.
Proof. unfold rstrip. rewrite rev_involutive, lstrip_idem. reflexivity. Qed.

Lemma rstrip_prefix (s : str) : ∃ b, s = rstrip s ++ b.
Proof.
  unfold rstrip. destruct (lstrip_suffix (rev s)) as [a Ha].
  exists (rev a). rewrite <- rev_app_distr, <- Ha, rev_involutive. reflexivity.
Qed.

Lemma lstrip_rstrip (s : str) : lstrip s = s → lstrip (rstrip s) = rstrip s.
Proof.
  destruct s as [|c s]; [reflexivity|]. simpl.
  destruct (isspace c) eqn:E.
  - intros H. exfalso. destruct (lstrip_suffix s) as [a Ha].
    rewrite H in Ha. apply (f_equal length) in Ha.
    rewrite length_app in Ha. simpl in Ha. lia.
  - intros _. rewrite rstrip_cons by exact E. simpl. rewrite E. reflexivity.
Qed.

Lemma strip_factor (s : str) : ∃ a b, s = a ++ strip s ++ b.
Proof.
  unfold strip. destruct (lstrip_suffix s) as [a Ha].
  destruct (rstrip_prefix (lstrip s)) as [b Hb].
  exists a, b. rewrite <- Hb. exact Ha.
Qed.

Lemma strip_idem (s : str) : strip (strip s) = strip s.
Proof.
  unfold strip. rewrite lstrip_rstrip by apply lstrip_idem.
  apply rstrip_idem.
Qed.

Lemma strip_between (c d : N) (s : str) :
  isspace c = false → isspace d = false →
  strip (c :: s ++ [d]) = c :: s ++ [d].
Proof.
  intros Hc Hd. unfold strip. simpl. rewrite Hc.
  change (c :: s ++ [d]) with ((c :: s) ++ [d]). apply rstrip_snoc. exact Hd.
Qed.

(** ** The scan *)

Lemma scan_skip (rules : list (str * str)) (n : nat) (s : str) :
  scan rules n s = scan rules 0 (drop n s).
Proof.
  revert n. induction s as [|c s IH]; intros [|n]; try reflexivity.
  simpl. apply IH.
Qed.

Lemma scan_cons (rules : list (str * str)) (c : N) (t : str) :
  scan rules 0 (c :: t) =
    match first_rule rules (c :: t) with
    | Some (old, new) => new ++ scan rules (length old - 1) t
    | None => c :: scan rules 0 t
    end.
Proof. reflexivity. Qed.

Lemma first_rule_cons (old new : str) (rules : list (str * str)) (s : str) :
  first_rule ((old, new) :: rules) s =
    if starts_with old s then Some (old, new) else first_rule rules s.
Proof. reflexivity. Qed.

Lemma starts_with_nil_r (p : str) : p ≠ [] → starts_with p [] = false.
Proof. destruct p; [congruence | reflexivity]. Qed.

Lemma replace_unfold (old new s : str) :
  old ≠ [] →
  replace old new s =
    if starts_with old s then new ++ replace old new (drop (length old) s)
    else match s with [] => [] | c :: t => c :: replace old new t end.
Proof.
  intros Hold. unfold replace. destruct s as [|c t].
  - rewrite starts_with_nil_r by exact Hold. reflexivity.
  - rewrite scan_cons, first_rule_cons.
    destruct (starts_with old (c :: t)); [|reflexivity].
    rewrite scan_skip. destruct old as [|a old]; [congruence|].
    simpl. rewrite Nat.sub_0_r. reflexivity.
Qed.

Lemma re_sub_fences_unfold (s : str) :
  re_sub_fences s =
    if starts_with fence_sql s then re_sub_fences (drop 6 s)
    else if starts_with fence s then re_sub_fences (drop 3 s)
    else match s with [] => [] | c :: t => c :: re_sub_fences t end.
Proof.
  unfold re_sub_fences. destruct s as [|c t]; [reflexivity|].
  rewrite scan_cons, !first_rule_cons.
  destruct (starts_with fence_sql (c :: t)).
  - rewrite scan_skip. reflexivity.
  - destruct (starts_with fence (c :: t)); [|reflexivity].
    rewrite scan_skip. reflexivity.
Qed.

Lemma starts_with_fence_lead (s : str) :
  starts_with fence s = (3 <=? lead s)%nat.
Proof.
  change fence with [backtick; backtick; backtick].
  destruct s as [|c1 [|c2 [|c3 s]]]; simpl;
    repeat match goal with
           | |- context [N.eqb ?a ?b] => destruct (N.eqb_spec a b); subst; simpl
           end;
    try reflexivity; try congruence.
Qed.

Lemma starts_with_fence_sql_fence (s : str) :
  starts_with fence_sql s = true → starts_with fence s = true.
Proof.
  intros H. apply starts_with_spec in H as [b ->].
  change fence_sql with (fence ++ lit "sql"). rewrite <- app_assoc.
  apply starts_with_app.
Qed.

Lemma no_fence_lead (s : str) : contains fence s = false → (lead s ≤ 2)%nat.
Proof.
  rewrite contains_unfold. intros H. apply orb_false_elim in H as [H _].
  rewrite starts_with_fence_lead in H. apply Nat.leb_gt in H. lia.
Qed.

Lemma length_drop_lt (n : nat) (c : N) (t : str) :
  (length (drop (S n) (c :: t)) < length (c :: t))%nat.
Proof. rewrite length_drop. simpl. lia. Qed.

(** What [re.sub] leaves has no fence, and begins with no more backticks
    than the text did. *)
Lemma re_sub_fences_invariant (s : str) :
  contains fence (re_sub_fences s) = false ∧
  (lead (re_sub_fences s) ≤ lead s)%nat.
Proof.
  remember (length s) as n eqn:En. revert s En.
  induction n as [n IH] using lt_wf_ind. intros s En.
  rewrite re_sub_fences_unfold.
  destruct (starts_with fence_sql s) eqn:Esql.
  - destruct s as [|c t]; [discriminate|].
    destruct (IH (length (drop 6 (c :: t)))) with (s := drop 6 (c :: t)) as [H1 _];
      [subst n; apply length_drop_lt | reflexivity |].
    split; [exact H1|].
    apply no_fence_lead in H1.
    apply starts_with_fence_sql_fence in Esql.
    rewrite starts_with_fence_lead in Esql. apply Nat.leb_le in Esql. lia.
  - destruct (starts_with fence s) eqn:Ef.
    + destruct s as [|c t]; [discriminate|].
      destruct (IH (length (drop 3 (c :: t)))) with (s := drop 3 (c :: t)) as [H1 _];
        [subst n; apply length_drop_lt | reflexivity |].
      split; [exact H1|].
      apply no_fence_lead in H1.
      rewrite starts_with_fence_lead in Ef. apply Nat.leb_le in Ef. lia.
    + destruct s as [|c t]; [split; [reflexivity | simpl; lia]|].
      destruct (IH (length t)) with (s := t) as [H1 H2];
        [subst n; simpl; lia | reflexivity |].
      rewrite starts_with_fence_lead in Ef. apply Nat.leb_gt in Ef.
      assert (Hl : (lead (c :: re_sub_fences t) ≤ lead (c :: t))%nat).
      { simpl. destruct (c =? backtick); lia. }
      split; [|exact Hl].
      rewrite contains_unfold, H1, orb_false_r, starts_with_fence_lead.
      apply Nat.leb_gt. lia.
Qed.

(** A text without a match is left as it is. *)
Lemma scan_no_match (rules : list (str * str)) (s : str) :
  (∀ old new, (old, new) ∈ rules → contains old s = false) →
  scan rules 0 s = s.
Proof.
  induction s as [|c s IH]; intros H; [reflexivity|].
  rewrite scan_cons.
  assert (Hnone : first_rule rules (c :: s) = None).
  { clear IH. induction rules as [|[old new] rules IHr]; [reflexivity|].
    rewrite first_rule_cons. assert (Hc := H old new (list_elem_of_here _ _)).
    rewrite contains_unfold in Hc. apply orb_false_elim in Hc as [-> _].
    apply IHr. intros o n' Hin. apply (H o n'). apply list_elem_of_further, Hin. }
  rewrite Hnone. f_equal. apply IH. intros old new Hin.
  specialize (H old new Hin). rewrite contains_unfold in H.
  apply orb_false_elim in H as [_ H]. exact H.
Qed.

Lemma starts_with_contains (p q s : str) :
  starts_with p q = true → contains p s = false → contains q s = false.
Proof.
  intros Hpq Hp. destruct (contains q s) eqn:E; [|reflexivity].
  apply contains_spec in E as (a & b & ->).
  apply starts_with_spec in Hpq as [r ->].
  rewrite <- Hp. symmetry. apply contains_spec. exists a, (r ++ b).
  rewrite <- app_assoc. reflexivity.
Qed.

Lemma re_sub_fences_no_fence (s : str) :
  contains fence s = false → re_sub_fences s = s.
Proof.
  intros H. apply scan_no_match. intros old new Hin.
  apply elem_of_cons in Hin as [[= -> ->]|Hin].
  - apply (starts_with_contains fence); [reflexivity | exact H].
  - apply list_elem_of_singleton in Hin as [= -> ->]. exact H.
Qed.

Lemma replace_no_occurrence (old new s : str) :
  contains old s = false → replace old new s = s.
Proof.
  intros H. apply scan_no_match. intros o n Hin.
  apply list_elem_of_singleton in Hin as [= -> ->]. exact H.
Qed.

(** ** The split *)

Lemma re_split_0 (s : str) : re_split s 0 = [s].
Proof. destruct s; reflexivity. Qed.

Lemma re_split_cons (c : N) (t : str) (m : nat) :
  re_split (c :: t) (S m) =
    if boundary_here (c :: t) then [] :: re_split t m
    else match re_split t (S m) with
         | piece :: pieces => (c :: piece) :: pieces
         | [] => [[c]]
         end.
Proof. reflexivity. Qed.

Lemma has_keyword_line_cons (c : N) (t : str) :
  has_keyword_line (c :: t) = boundary_here (c :: t) || has_keyword_line t.
Proof. reflexivity. Qed.

Lemma re_split_1_no_line (s : str) :
  has_keyword_line s = false → re_split s 1 = [s].
Proof.
  induction s as [|c t IH]; [reflexivity|].
  rewrite has_keyword_line_cons. intros H.
  apply orb_false_elim in H as [Hb Ht].
  rewrite re_split_cons, Hb, (IH Ht). reflexivity.
Qed.

Lemma starts_with_app_stop (k x z : str) (c : N) :
  forallb (fun a => negb (a =? c)) k = true →
  starts_with k (x ++ c :: z) = true → starts_with k x = true.
Proof.
  revert x. induction k as [|a k IH]; intros x Hk H; [reflexivity|].
  simpl in Hk. apply andb_prop in Hk as [Ha Hk].
  destruct x as [|b x]; simpl in H |- *.
  - apply andb_prop in H as [H _]. rewrite H in Ha. discriminate.
  - apply andb_prop in H as [-> H]. simpl. apply IH; assumption.
Qed.

Lemma keywords_one_line :
  forallb (fun k => forallb (fun a => negb (a =? nl)) k) keywords = true.
Proof. reflexivity. Qed.

Lemma starts_with_keyword_app_nl (x z : str) :
  starts_with_keyword (x ++ nl :: z) = true → starts_with_keyword x = true.
Proof.
  unfold starts_with_keyword. intros H.
  apply existsb_exists in H as (k & Hin & Hk). apply existsb_exists.
  exists k. split; [exact Hin|].
  apply (starts_with_app_stop k x z nl); [|exact Hk].
  pose proof keywords_one_line as Hall.
  rewrite forallb_forall in Hall. apply Hall, Hin.
Qed.

Lemma re_split_1_first (pre post : str) :
  has_keyword_line pre = false → starts_with_keyword post = true →
  re_split (pre ++ nl :: post) 1 = [pre; post].
Proof.
  intros Hpre Hpost. induction pre as [|c pre IH].
  - rewrite app_nil_l, re_split_cons. unfold boundary_here.
    rewrite N.eqb_refl, Hpost, re_split_0. reflexivity.
  - rewrite has_keyword_line_cons in Hpre.
    apply orb_false_elim in Hpre as [Hb Hpre].
    change ((c :: pre) ++ nl :: post) with (c :: (pre ++ nl :: post)).
    rewrite re_split_cons.
    assert (Hb' : boundary_here (c :: pre ++ nl :: post) = false).
    { unfold boundary_here in *. destruct (c =? nl); [|reflexivity].
      simpl in *. destruct (starts_with_keyword (pre ++ nl :: post)) eqn:E;
        [|reflexivity].
      apply starts_with_keyword_app_nl in E. congruence. }
    rewrite Hb', (IH Hpre). reflexivity.
Qed.

Lemma re_split_1_shape (s : str) :
  re_split s 1 = [s] ∨ ∃ a b, s = a ++ nl :: b ∧ re_split s 1 = [a; b].
Proof.
  induction s as [|c t IH]; [left; reflexivity|].
  rewrite re_split_cons. destruct (boundary_here (c :: t)) eqn:Hb.
  - right. exists [], t. unfold boundary_here in Hb.
    apply andb_prop in Hb as [Hc _]. apply N.eqb_eq in Hc. subst c.
    rewrite re_split_0. split; reflexivity.
  - destruct IH as [-> | (a & b & -> & ->)].
    + left. reflexivity.
    + right. exists (c :: a), b. split; reflexivity.
Qed.

Lemma re_split_1_last (s : str) :
  ∃ a x, index_last (re_split s 1) = Ok x ∧ s = a ++ x.
Proof.
  destruct (re_split_1_shape s) as [-> | (a & b & -> & ->)].
  - exists [], s. split; reflexivity.
  - exists (a ++ [nl]), b. split; [reflexivity|].
    rewrite <- app_assoc. reflexivity.
Qed.

(** ** The sanitizer *)

Lemma clean_sql_output_unfold (s : str) :
  clean_sql_output s =
    match index_last (re_split (fence_free s) 1) with
    | Ok x => Ok (strip x)
    | Raise e => Raise e
    end.
Proof. reflexivity. Qed.

Lemma clean_sql_output_plain (s : str) :
  contains fence s = false → has_keyword_line s = false →
  clean_sql_output s = Ok (strip s).
Proof.
  intros Hf Hk. destruct (strip_factor s) as (a & b & Hs).
  rewrite clean_sql_output_unfold. unfold fence_free.
  rewrite re_sub_fences_no_fence by exact (contains_false_factor _ _ _ _ _ Hf Hs).
  rewrite strip_idem.
  rewrite re_split_1_no_line by exact (has_keyword_line_factor _ _ _ _ Hk Hs).
  simpl. rewrite strip_idem. reflexivity.
Qed.

Lemma lead_le_length (s : str) : (lead s ≤ length s)%nat.
Proof.
  induction s as [|c s IH]; simpl; [lia|]. destruct (c =? backtick); lia.
Qed.

Lemma lead_app_lt (x y : str) :
  (lead x < length x)%nat → lead (x ++ y) = lead x.
Proof.
  induction x as [|c x IH]; simpl; [lia|].
  destruct (c =? backtick); [|reflexivity]. intros H. f_equal. apply IH. lia.
Qed.

Lemma lead_full (x : str) :
  lead x = length x → x = replicate (length x) backtick.
Proof.
  induction x as [|c x IH]; simpl; [reflexivity|].
  destruct (N.eqb_spec c backtick) as [->|]; [|discriminate].
  intros [= H]. f_equal. apply IH, H.
Qed.

Lemma re_sub_fences_step (c : N) (t : str) :
  (lead (c :: t) < 3)%nat → re_sub_fences (c :: t) = c :: re_sub_fences t.
Proof.
  intros H. rewrite re_sub_fences_unfold.
  assert (Hf : starts_with fence (c :: t) = false).
  { rewrite starts_with_fence_lead. apply Nat.leb_gt. exact H. }
  destruct (starts_with fence_sql (c :: t)) eqn:E.
  - apply starts_with_fence_sql_fence in E. congruence.
  - rewrite Hf. reflexivity.
Qed.

(** A closing fence after a text without fences is removed, and nothing
    else is. *)
Lemma re_sub_fences_close (body : str) :
  contains fence body = false → re_sub_fences (body ++ fence) = body.
Proof.
  induction body as [|c t IH]; intros H; [reflexivity|].
  pose proof (no_fence_lead _ H) as Hl.
  pose proof (lead_le_length (c :: t)) as Hle.
  destruct (decide (lead (c :: t) < length (c :: t))%nat) as [Hlt|Hge].
  - change ((c :: t) ++ fence) with (c :: (t ++ fence)).
    rewrite re_sub_fences_step.
    + f_equal. apply IH. rewrite contains_unfold in H.
      apply orb_false_elim in H as [_ H]. exact H.
    + change (c :: (t ++ fence)) with ((c :: t) ++ fence).
      rewrite lead_app_lt by exact Hlt. lia.
  - assert (Hfull : lead (c :: t) = length (c :: t)) by lia.
    apply lead_full in Hfull. rewrite Hfull.
    assert (Hlen : (length (c :: t) ≤ 2)%nat) by lia.
    destruct t as [|c2 [|c3 t]]; simpl in Hlen; try lia; reflexivity.
Qed.

(** The sanitizer returns, and what it returns is a part of what [re.sub]
    left. *)
Lemma clean_sql_output_returns (s : str) :
  ∃ out, clean_sql_output s = Ok out ∧ contains fence out = false.
Proof.
  rewrite clean_sql_output_unfold.
  destruct (re_split_1_last (fence_free s)) as (a & x & -> & Hx).
  exists (strip x). split; [reflexivity|].
  destruct (re_sub_fences_invariant (strip s)) as [H0 _].
  destruct (strip_factor (re_sub_fences (strip s))) as (a1 & b1 & H1).
  destruct (strip_factor x) as (a2 & b2 & H2).
  pose proof (contains_false_factor _ _ _ _ _ H0 H1) as H3.
  fold (fence_free s) in H3. rewrite Hx in H3.
  assert (H4 : contains fence x = false).
  { apply (contains_false_factor _ _ a x [] H3). rewrite app_nil_r. reflexivity. }
  exact (contains_false_factor _ _ _ _ _ H4 H2).
Qed.

(** C10: for every input, [clean_sql_output] returns a text in which three
    consecutive backticks do not occur anywhere. *)
Theorem clean_sql_output_no_fence (s : str) :
  ∃ out, clean_sql_output s = Ok out ∧ ∀ a b, out ≠ a ++ fence ++ b.
Proof.
  destruct (clean_sql_output_returns s) as (out & Hout & Hf).
  exists out. split; [exact Hout|]. intros a b E.
  assert (contains fence out = true) by (apply contains_spec; eauto).
  congruence.
Qed.

(** C8: [clean_sql_output] returns for every input; on an input without
    triple backticks and without a newline followed by a keyword it returns
    the trimmed input, and applying it to its own result changes nothing. *)
Theorem clean_sql_output_plain_idempotent (s : str) :
  (∃ out, clean_sql_output s = Ok out) ∧
  (contains fence s = false → has_keyword_line s = false →
   clean_sql_output s = Ok (strip s) ∧
   ∀ out, clean_sql_output s = Ok out → clean_sql_output out = Ok out).
Proof.
  split.
  - destruct (clean_sql_output_returns s) as (out & H & _). eauto.
  - intros Hf Hk. split; [apply clean_sql_output_plain; assumption|].
    intros out. rewrite clean_sql_output_plain by assumption.
    intros [= <-]. destruct (strip_factor s) as (a & b & Hs).
    rewrite clean_sql_output_plain.
    + rewrite strip_idem. reflexivity.
    + exact (contains_false_factor _ _ _ _ _ Hf Hs).
    + exact (has_keyword_line_factor _ _ _ _ Hk Hs).
Qed.

Lemma clean_sql_output_plain_idempotent_witness :
  clean_sql_output (lit "  SELECT `a` FROM t;  ") = Ok (lit "SELECT `a` FROM t;") ∧
  clean_sql_output (lit "SELECT `a` FROM t;") = Ok (lit "SELECT `a` FROM t;").
Proof.
  destruct (clean_sql_output_plain_idempotent (lit "  SELECT `a` FROM t;  "))
    as [_ H].
  destruct H as [H1 H2]; [reflexivity | reflexivity |].
  split; [exact H1 | exact (H2 _ H1)].
Defined.

(** C1, as the code has it: when the trimmed text without fences has a
    newline followed by a keyword, [clean_sql_output] returns what follows
    the first such newline, trimmed. *)
Theorem clean_sql_output_first_keyword_line (s pre post : str) :
  fence_free s = pre ++ nl :: post →
  starts_with_keyword post = true →
  has_keyword_line pre = false →
  clean_sql_output s = Ok (strip post).
Proof.
  intros Hs Hpost Hpre. rewrite clean_sql_output_unfold, Hs.
  rewrite re_split_1_first by assumption. reflexivity.
Qed.

Lemma clean_sql_output_first_keyword_line_witness :
  clean_sql_output (lit "Here is the query:" ++ nl :: lit "SELECT 1;" ++ nl :: lit "SELECT 2;")
  = Ok (strip (lit "SELECT 1;" ++ nl :: lit "SELECT 2;")).
Proof.
  apply (clean_sql_output_first_keyword_line _ (lit "Here is the query:"));
    reflexivity.
Defined.

(** C1 as stated fails: with two keyword lines the text from the last one
    onward is not what is returned. *)
Lemma clean_sql_output_last_keyword_line_counterexample :
  let s := lit "Here is the query:" ++ nl :: lit "SELECT 1;" ++ nl :: lit "SELECT 2;" in
  let pre := lit "Here is the query:" ++ nl :: lit "SELECT 1;" in
  let post := lit "SELECT 2;" in
  s = pre ++ nl :: post ∧ fence_free s = s ∧
  starts_with_keyword post = true ∧ has_keyword_line post = false ∧
  clean_sql_output s = Ok (lit "SELECT 1;" ++ nl :: lit "SELECT 2;") ∧
  clean_sql_output s ≠ Ok (strip post).
Proof.
  vm_compute. repeat split; discriminate.
Qed.

Lemma fenced_strip (tag body : str) :
  strip (fence ++ tag ++ body ++ fence) = fence ++ tag ++ body ++ fence.
Proof.
  assert (E : fence ++ tag ++ body ++ fence =
              backtick :: ([backtick; backtick] ++ tag ++ body ++ [backtick; backtick])
                ++ [backtick]).
  { change fence with [backtick; backtick; backtick]. simpl.
    rewrite <- !app_assoc. reflexivity. }
  rewrite E. apply strip_between; reflexivity.
Qed.

(** C5, as the code has it: a text between an opening fence, with or
    without the tag [sql], and a closing fence is returned trimmed when it
    has no triple backticks of its own, does not begin with [sql] where the
    fence has no tag, and has after trimming no newline followed by a
    keyword. *)
Theorem clean_sql_output_fenced (tag body : str) :
  tag = [] ∨ tag = lit "sql" →
  contains fence body = false →
  (tag = [] → starts_with (lit "sql") body = false) →
  has_keyword_line (strip body) = false →
  clean_sql_output (fence ++ tag ++ body ++ fence) = Ok (strip body).
Proof.
  intros Htag Hf Hsql Hk.
  assert (Hsub : re_sub_fences (fence ++ tag ++ body ++ fence) = body).
  { rewrite re_sub_fences_unfold. destruct Htag as [-> | ->].
    - rewrite app_nil_l.
      assert (E : starts_with fence_sql (fence ++ body ++ fence) = false).
      { change (starts_with (lit "sql") (body ++ backtick :: [backtick; backtick]) = false).
        destruct (starts_with (lit "sql") (body ++ backtick :: [backtick; backtick])) eqn:E;
          [|reflexivity].
        apply starts_with_app_stop in E; [|reflexivity].
        rewrite Hsql in E; [discriminate | reflexivity]. }
      rewrite E, starts_with_app.
      change (drop 3 (fence ++ body ++ fence)) with (body ++ fence).
      apply re_sub_fences_close, Hf.
    - rewrite (app_assoc fence).
      change (fence ++ lit "sql") with fence_sql.
      rewrite starts_with_app.
      change (drop 6 (fence_sql ++ body ++ fence)) with (body ++ fence).
      apply re_sub_fences_close, Hf. }
  rewrite clean_sql_output_unfold. unfold fence_free.
  rewrite fenced_strip, Hsub, re_split_1_no_line by exact Hk.
  simpl. rewrite strip_idem. reflexivity.
Qed.

Lemma clean_sql_output_fenced_witness :
  clean_sql_output
    (fence ++ lit "sql" ++
     (nl :: lit "SELECT customerName FROM customers WHERE country = 'France';" ++ [nl])
     ++ fence)
  = Ok (lit "SELECT customerName FROM customers WHERE country = 'France';").
Proof.
  apply (clean_sql_output_fenced (lit "sql")
           (nl :: lit "SELECT customerName FROM customers WHERE country = 'France';" ++ [nl])).
  - right. reflexivity.
  - reflexivity.
  - intros H. discriminate H.
  - reflexivity.
Defined.

(** C5 as stated fails: a fenced statement of two lines, the second one
    beginning with a keyword, loses its first line; and after a fence
    without a tag, a text that begins with [sql] loses these letters. *)
Lemma clean_sql_output_fenced_counterexample :
  let body := nl :: lit "WITH t AS (SELECT 1)" ++ nl :: lit "SELECT * FROM t;" ++ [nl] in
  let body' := lit "sqlite3 shop.db" ++ [nl] in
  clean_sql_output (fence ++ lit "sql" ++ body ++ fence) = Ok (lit "SELECT * FROM t;") ∧
  clean_sql_output (fence ++ lit "sql" ++ body ++ fence) ≠ Ok (strip body) ∧
  clean_sql_output (fence ++ body' ++ fence) = Ok (lit "ite3 shop.db") ∧
  clean_sql_output (fence ++ body' ++ fence) ≠ Ok (strip body').
Proof.
  vm_compute. repeat split; discriminate.
Qed.

(** ** Replacement around a word *)

Lemma starts_with_clash (old u y : str) :
  clash old u = false → starts_with old (u ++ y) = false.
Proof.
  unfold clash. revert u. induction old as [|a old IH]; intros u H.
  - discriminate.
  - destruct u as [|b u]; [discriminate|].
    simpl in H |- *. destruct (N.eqb_spec a b) as [->|Hab]; [|reflexivity].
    rewrite N.eqb_refl in H. simpl in H |- *. apply IH, H.
Qed.

Lemma replace_through (old new m y : str) :
  old ≠ [] → apart_in old m = true →
  replace old new (m ++ y) = m ++ replace old new y.
Proof.
  intros Hold. induction m as [|c m IH]; intros H; [reflexivity|].
  unfold apart_in in H. simpl in H. apply andb_prop in H as [Hc Hm].
  apply negb_true_iff in Hc.
  rewrite replace_unfold by exact Hold.
  rewrite (starts_with_clash _ _ _ Hc). simpl. f_equal. apply IH, Hm.
Qed.

Lemma starts_with_reach (m y x old : str) :
  forallb (fun u => negb (clash u m)) (tails old) = true →
  starts_with old (x ++ m ++ y) = starts_with old x.
Proof.
  revert old. induction x as [|c x IH]; intros [|a old] H; try reflexivity.
  - simpl in H. apply andb_prop in H as [H _]. apply negb_true_iff in H.
    rewrite app_nil_l. apply starts_with_clash, H.
  - simpl in H. apply andb_prop in H as [_ H]. simpl. f_equal. apply IH, H.
Qed.

Lemma starts_with_apart_out (old m y x : str) (c : N) :
  apart_out old m = true →
  starts_with old ((c :: x) ++ m ++ y) = starts_with old (c :: x).
Proof.
  destruct old as [|a old]; [reflexivity|]. unfold apart_out. simpl.
  intros H. f_equal. apply starts_with_reach, H.
Qed.

Lemma replace_around (old new m m' : str) :
  old ≠ [] → apart_out old m = true →
  (∀ y, replace old new (m ++ y) = m' ++ replace old new y) →
  ∀ x y, replace old new (x ++ m ++ y)
         = replace old new x ++ m' ++ replace old new y.
Proof.
  intros Hold Hout Hm x. remember (length x) as n eqn:En. revert x En.
  induction n as [n IH] using lt_wf_ind. intros [|c x] En y.
  - apply Hm.
  - rewrite (replace_unfold old new ((c :: x) ++ m ++ y)) by exact Hold.
    rewrite (replace_unfold old new (c :: x)) by exact Hold.
    rewrite starts_with_apart_out by exact Hout.
    destruct (starts_with old (c :: x)) eqn:E.
    + apply starts_with_spec in E as [r Er]. rewrite Er, <- !app_assoc.
      rewrite !drop_app_length. f_equal.
      apply (IH (length r)); [|reflexivity].
      subst n. rewrite Er, length_app. destruct old; [congruence | simpl; lia].
    + simpl. f_equal. apply (IH (length x)); [subst n; simpl; lia | reflexivity].
Qed.

(** A word that [old] cannot overlap is passed over. *)
Lemma replace_mid (old new m x y : str) :
  old ≠ [] → apart_in old m = true → apart_out old m = true →
  replace old new (x ++ m ++ y) = replace old new x ++ m ++ replace old new y.
Proof.
  intros Hold Hin Hout. apply replace_around; [assumption..|].
  intros z. apply replace_through; assumption.
Qed.

(** An occurrence of [old] is replaced, when [old] cannot overlap itself. *)
Lemma replace_hit (old new x y : str) :
  old ≠ [] → apart_out old old = true →
  replace old new (x ++ old ++ y) = replace old new x ++ new ++ replace old new y.
Proof.
  intros Hold Hout. apply replace_around; [assumption..|].
  intros z. rewrite replace_unfold by exact Hold.
  rewrite starts_with_app, drop_app_length. reflexivity.
Qed.

Lemma correct_common_sql_errors_unfold (q : str) :
  correct_common_sql_errors q =
    replace (lit "products.price") (lit "products.buyPrice")
      (replace (lit "product_id") (lit "productCode")
         (replace (lit "order_details") (lit "orderdetails")
            (replace (lit "order_id") (lit "orderNumber")
               (replace (lit "customer_id") (lit "customerNumber") q)))).
Proof. reflexivity. Qed.

Ltac side_condition :=
  first [ reflexivity
        | let H := fresh in intros H; vm_compute in H; discriminate H ].

Ltac in_corrections :=
  unfold corrections;
  repeat first [ apply list_elem_of_here | apply list_elem_of_further ].

Ltac replace_step :=
  first [ rewrite replace_hit by side_condition
        | rewrite replace_mid by side_condition ].

(** C4: every occurrence of a key of the correction map is replaced by the
    value mapped to it, what stands before and after it being corrected in
    the same way; a text in which no key occurs is returned as it is. *)
Theorem correct_common_sql_errors_every_occurrence (query : str) :
  (∀ wrong fixed a b,
     (wrong, fixed) ∈ corrections → query = a ++ wrong ++ b →
     correct_common_sql_errors query
     = correct_common_sql_errors a ++ fixed ++ correct_common_sql_errors b) ∧
  ((∀ wrong fixed, (wrong, fixed) ∈ corrections → contains wrong query = false) →
   correct_common_sql_errors query = query).
Proof.
  split.
  - intros wrong fixed a b Hin ->. unfold corrections in Hin.
    rewrite !correct_common_sql_errors_unfold.
    repeat (apply elem_of_cons in Hin as [[= -> ->] | Hin]);
      [repeat replace_step; reflexivity .. |].
    apply elem_of_nil in Hin. contradiction.
  - intros H. rewrite correct_common_sql_errors_unfold.
    rewrite (replace_no_occurrence (lit "customer_id")) by (eapply H; in_corrections).
    rewrite (replace_no_occurrence (lit "order_id")) by (eapply H; in_corrections).
    rewrite (replace_no_occurrence (lit "order_details")) by (eapply H; in_corrections).
    rewrite (replace_no_occurrence (lit "product_id")) by (eapply H; in_corrections).
    rewrite (replace_no_occurrence (lit "products.price")) by (eapply H; in_corrections).
    reflexivity.
Qed.

Lemma correct_common_sql_errors_every_occurrence_witness :
  correct_common_sql_errors (lit "SELECT customer_id FROM order_details")
  = correct_common_sql_errors (lit "SELECT ") ++ lit "customerNumber"
    ++ correct_common_sql_errors (lit " FROM order_details")
  ∧ correct_common_sql_errors (lit "SELECT 1;") = lit "SELECT 1;".
Proof.
  split.
  - apply (proj1 (correct_common_sql_errors_every_occurrence _)
             (lit "customer_id") (lit "customerNumber")).
    + in_corrections.
    + reflexivity.
  - apply (proj2 (correct_common_sql_errors_every_occurrence _)).
    intros wrong fixed Hin. unfold corrections in Hin.
    repeat (apply elem_of_cons in Hin as [[= -> ->] | Hin]); try reflexivity.
    apply elem_of_nil in Hin. contradiction.
Defined.

(** ** The monad *)

Lemma bind_run {A B} (m : M A) (f : A → M B) (st : state) :
  bind m f st =
    match m st with
    | (Ok a, st') => f a st'
    | (Raise e, st') => (Raise e, st')
    end.
Proof. reflexivity. Qed.

(** ** The query executor *)

(** The outcome of the database run decides the record and the events. *)
Lemma execute_query_run {Value : Type} (w : world Value)
    (query : str) (st : state) :
  let announce := Stdout ([nl] ++ lit "Executing SQL Query:" ++ [nl] ++ query) in
  execute_query w query st =
    match db_run w (S (length (trace st))) query with
    | Ok result =>
        (Ok (if truthy w result then Rows result
             else Dict (lit "info") (lit "No results found.")),
         set_trace (fun t => (t ++ [announce]) ++ [Run query]) st)
    | Raise e =>
        (Ok (Dict (lit "error") (lit "Query failed: " ++ e)),
         set_trace
           (fun t => ((t ++ [announce]) ++ [Run query])
                     ++ [Stdout ([nl] ++ lit "SQL Execution Error: " ++ e)]) st)
    end.
Proof.
  unfold execute_query, try_except, bind, print, run_call, ret, set_trace.
  cbn [trace]. rewrite length_app, Nat.add_1_r.
  destruct (db_run w (S (length (trace st))) query) as [result|e]; reflexivity.
Qed.

(** C2: [execute_query] returns for every statement and never raises: the
    error record with the message when the database run raises, the value
    itself when the run returns a value that counts as true, and the
    no-rows record when it returns an empty one. *)
Theorem execute_query_never_raises {Value : Type} (w : world Value)
    (query : str) (st : state) :
  ∃ st',
    execute_query w query st =
      (Ok (match db_run w (S (length (trace st))) query with
           | Raise e => Dict (lit "error") (lit "Query failed: " ++ e)
           | Ok result =>
               if truthy w result then Rows result
               else Dict (lit "info") (lit "No results found.")
           end), st').
Proof.
  rewrite execute_query_run.
  destruct (db_run w (S (length (trace st))) query) as [result|e];
    eexists; reflexivity.
Qed.

(** ** The session memory store *)

Lemma wf_initial_state : wf initial_state.
Proof.
  split.
  - intros key h H. simpl in H. rewrite lookup_empty in H. discriminate.
  - intros k1 k2 h H. simpl in H. rewrite lookup_empty in H. discriminate.
Qed.

Lemma get_memory_new (session_id : pyval) (st : state) :
  store st !! session_id = None →
  get_memory session_id st =
    (Ok (length (heap st)),
     set_store (<[session_id := length (heap st)]>)
       (set_heap (fun h => h ++ [[]]) st)).
Proof.
  intros H. unfold get_memory, bind.
  destruct (decide (store st !! session_id = None)) as [_|Hn]; [|contradiction].
  cbn [store set_store set_heap]. rewrite lookup_insert_eq. reflexivity.
Qed.

Lemma get_memory_old (session_id : pyval) (h : nat) (st : state) :
  store st !! session_id = Some h → get_memory session_id st = (Ok h, st).
Proof.
  intros H. unfold get_memory, bind.
  destruct (decide (store st !! session_id = None)) as [Hn|_]; [congruence|].
  rewrite H. reflexivity.
Qed.

(** What a call of [get_memory] leaves behind. *)
Lemma get_memory_spec (session_id : pyval) (st : state) :
  wf st →
  ∃ h st1,
    get_memory session_id st = (Ok h, st1) ∧ wf st1 ∧
    store st1 !! session_id = Some h ∧
    heap st1 !! h = Some (default [] (transcript st session_id)) ∧
    (∀ k, k ≠ session_id → transcript st1 k = transcript st k) ∧
    schema_cache st1 = schema_cache st ∧ trace st1 = trace st.
Proof.
  intros [Hlt Hinj]. destruct (store st !! session_id) as [h|] eqn:E.
  - exists h, st. rewrite (get_memory_old _ _ _ E).
    destruct (lookup_lt_is_Some_2 _ _ (Hlt _ _ E)) as [ms Hms].
    unfold transcript. rewrite E, Hms. repeat split; auto.
  - eexists _, _. rewrite (get_memory_new _ _ E). split; [reflexivity|].
    unfold wf, transcript. cbn [store heap set_store set_heap schema_cache trace].
    rewrite E. repeat split.
    + intros key h H. rewrite length_app. simpl.
      destruct (decide (session_id = key)) as [->|Hne].
      * rewrite lookup_insert_eq in H. injection H as <-. lia.
      * rewrite lookup_insert_ne in H by exact Hne. apply Hlt in H. lia.
    + intros k1 k2 h H1 H2.
      destruct (decide (session_id = k1)) as [<-|Hne1];
        destruct (decide (session_id = k2)) as [<-|Hne2]; [reflexivity|..].
      * rewrite lookup_insert_eq in H1. injection H1 as <-.
        rewrite lookup_insert_ne in H2 by exact Hne2. apply Hlt in H2. lia.
      * rewrite lookup_insert_eq in H2. injection H2 as <-.
        rewrite lookup_insert_ne in H1 by exact Hne1. apply Hlt in H1. lia.
      * rewrite lookup_insert_ne in H1 by exact Hne1.
        rewrite lookup_insert_ne in H2 by exact Hne2. eauto.
    + apply lookup_insert_eq.
    + apply list_lookup_middle. reflexivity.
    + intros k Hk. rewrite lookup_insert_ne by congruence.
      destruct (store st !! k) as [h|] eqn:Ek; [|reflexivity].
      apply lookup_app_l, (Hlt _ _ Ek).
Qed.

(** C6: a call of [get_memory] for a key without a session stores a new,
    empty transcript under the key and returns it; for a key with a session
    it returns the transcript the store has and changes nothing; a second
    call with the same key returns the same object, so that what is
    appended through the first is read through the second. *)
Theorem get_memory_same_transcript (session_id : pyval) (st : state) :
  wf st →
  ∃ h st1,
    get_memory session_id st = (Ok h, st1) ∧
    (store st !! session_id = None →
       heap st !! h = None ∧ store st1 = <[session_id := h]> (store st) ∧
       heap st1 !! h = Some []) ∧
    (∀ h0, store st !! session_id = Some h0 → h = h0 ∧ st1 = st) ∧
    get_memory session_id st1 = (Ok h, st1) ∧
    ∀ ms : list message,
      let st2 := snd (add_messages h ms st1) in
      get_memory session_id st2 = (Ok h, st2) ∧
      fst (messages h st2) = Ok (default [] (transcript st1 session_id) ++ ms).
Proof.
  intros Hwf.
  destruct (get_memory_spec session_id st Hwf)
    as (h & st1 & Hget & Hwf1 & Hstore & Hheap & _).
  exists h, st1. split; [exact Hget|]. repeat split.
  - rewrite (get_memory_new _ _ H) in Hget. injection Hget as <- _.
    apply lookup_ge_None. lia.
  - rewrite (get_memory_new _ _ H) in Hget. injection Hget as <- <-. reflexivity.
  - rewrite Hheap. unfold transcript. rewrite H. reflexivity.
  - rewrite (get_memory_old _ _ _ H) in Hget. congruence.
  - rewrite (get_memory_old _ _ _ H) in Hget. congruence.
  - apply get_memory_old, Hstore.
  - apply get_memory_old. exact Hstore.
  - unfold messages, add_messages, transcript. cbn [fst snd heap set_heap].
    rewrite Hstore, list_lookup_alter_eq, Hheap. reflexivity.
Qed.

Lemma get_memory_same_transcript_witness :
  ∃ h st1,
    get_memory (PyStr (lit "user-1")) initial_state = (Ok h, st1) ∧
    get_memory (PyStr (lit "user-1")) st1 = (Ok h, st1) ∧
    fst (messages h (snd (add_messages h [AIMessage (lit "SELECT 1;")] st1)))
    = Ok [AIMessage (lit "SELECT 1;")].
Proof.
  destruct (get_memory_same_transcript (PyStr (lit "user-1")) initial_state
              wf_initial_state) as (h & st1 & H1 & Hnew & _ & H2 & H3).
  exists h, st1. split; [exact H1|]. split; [exact H2|].
  destruct (H3 [AIMessage (lit "SELECT 1;")]) as [_ H4]. rewrite H4.
  unfold transcript. destruct (Hnew (lookup_empty _)) as (_ & Hs & Hh).
  rewrite Hs, lookup_insert_eq, Hh. reflexivity.
Defined.

(** ** The schema cache *)

Lemma introspections_snoc (t : list event) :
  introspections (t ++ [Introspect]) = S (introspections t).
Proof.
  unfold introspections. rewrite omap_app, length_app. simpl. lia.
Qed.

Lemma get_schema_description_hit {Value : Type} (w : world Value)
    (d : str) (st : state) :
  schema_cache st = Some d → get_schema_description w st = (Ok d, st).
Proof. intros H. unfold get_schema_description. rewrite H. reflexivity. Qed.

Lemma get_schema_description_miss {Value : Type} (w : world Value) (st : state) :
  schema_cache st = None →
  get_schema_description w st =
    match db_get_table_info w (length (trace st)) with
    | Ok d =>
        (Ok d, set_schema_cache (Some d) (set_trace (fun t => t ++ [Introspect]) st))
    | Raise e => (Raise e, set_trace (fun t => t ++ [Introspect]) st)
    end.
Proof.
  intros H. unfold get_schema_description. rewrite H.
  unfold bind, table_info_call, ret.
  destruct (db_get_table_info w (length (trace st))); reflexivity.
Qed.

Lemma schema_calls_S {Value : Type} (w : world Value) (n : nat) (st : state) :
  schema_calls w (S n) st =
    (fst (get_schema_description w st)
       :: fst (schema_calls w n (snd (get_schema_description w st))),
     snd (schema_calls w n (snd (get_schema_description w st)))).
Proof.
  simpl. destruct (get_schema_description w st) as [r st1]. simpl.
  destruct (schema_calls w n st1). reflexivity.
Qed.

(** Once a description is cached every call returns it and nothing moves. *)
Lemma schema_calls_cached {Value : Type} (w : world Value)
    (n : nat) (d : str) (st : state) :
  schema_cache st = Some d → schema_calls w n st = (replicate n (Ok d), st).
Proof.
  intros H. induction n as [|n IH]; [reflexivity|].
  rewrite schema_calls_S, (get_schema_description_hit w d st H). simpl.
  rewrite IH. reflexivity.
Qed.

(** C7, as the code has it: over any number of calls, the calls whose
    introspection raises come first and cache nothing, each of them issuing
    one introspection; the first call whose introspection returns caches the
    description, and every call after it returns that same description
    without a new introspection.  From a cached description on, a call
    changes nothing. *)
Theorem get_schema_description_memoized {Value : Type} (w : world Value)
    (n : nat) (st : state) :
  (∀ d, schema_cache st = Some d → schema_calls w n st = (replicate n (Ok d), st)) ∧
  ∃ es k d,
    fst (schema_calls w n st) = (Raise <$> es) ++ replicate k (Ok d) ∧
    (k ≠ O → schema_cache (snd (schema_calls w n st)) = Some d) ∧
    introspections (trace (snd (schema_calls w n st)))
    = (introspections (trace st) + length es
       + (if decide (k = O ∨ is_Some (schema_cache st)) then 0 else 1))%nat.
Proof.
  split; [intros d; apply schema_calls_cached|].
  revert st. induction n as [|n IH]; intros st.
  - exists [], O, []. simpl. split; [reflexivity|]. split; [congruence|].
    lia.
  - rewrite schema_calls_S. destruct (schema_cache st) as [d|] eqn:Ec.
    + rewrite (get_schema_description_hit w d st Ec). cbn [fst snd].
      rewrite (schema_calls_cached w n d st Ec). cbn [fst snd].
      exists [], (S n), d. split; [reflexivity|]. split; [intros _; exact Ec|].
      case_decide as Hn; [simpl; lia | exfalso; apply Hn; right; eauto].
    + rewrite (get_schema_description_miss w st Ec).
      destruct (db_get_table_info w (length (trace st))) as [d|e]; cbn [fst snd].
      * rewrite (schema_calls_cached w n d) by reflexivity. cbn [fst snd].
        exists [], (S n), d. split; [reflexivity|]. split; [reflexivity|].
        cbn [trace set_schema_cache set_trace]. rewrite introspections_snoc.
        case_decide as Hn; [|simpl; lia].
        destruct Hn as [H|[x H]]; discriminate.
      * destruct (IH (set_trace (fun t => t ++ [Introspect]) st))
          as (es & k & d & Hrs & Hc & Hi).
        exists (e :: es), k, d. rewrite Hrs. split; [reflexivity|].
        split; [exact Hc|]. rewrite Hi.
        cbn [trace set_trace schema_cache]. rewrite introspections_snoc, Ec.
        simpl. case_decide; lia.
Qed.

Lemma get_schema_description_memoized_witness :
  schema_calls sample_world 2 (snd (get_schema_description sample_world initial_state))
  = (replicate 2 (Ok sample_schema),
     snd (get_schema_description sample_world initial_state)).
Proof.
  apply (proj1 (get_schema_description_memoized sample_world 2
                  (snd (get_schema_description sample_world initial_state)))).
  reflexivity.
Defined.

(** C7 as stated fails: when the first introspection raises, two calls
    issue two introspections. *)
Lemma get_schema_description_two_introspections_counterexample :
  fst (schema_calls flaky_world 2 initial_state)
  = [Raise (lit "Can't connect to MySQL server"); Ok sample_schema] ∧
  introspections (trace (snd (schema_calls flaky_world 2 initial_state))) = 2%nat ∧
  ¬ (introspections (trace (snd (schema_calls flaky_world 2 initial_state))) ≤ 1)%nat.
Proof.
  split; [reflexivity|]. split; [reflexivity|].
  change (introspections (trace (snd (schema_calls flaky_world 2 initial_state))))
    with 2%nat. lia.
Qed.

(** ** The stages of the pipeline *)

Lemma executed_snoc (t : list event) (e : event) :
  executed (t ++ [e]) = executed t ++ executed [e].
Proof. apply omap_app. Qed.

Lemma build_sql_prompt_effect {Value : Type} (w : world Value) (st : state) :
  store (snd (build_sql_prompt w st)) = store st ∧
  heap (snd (build_sql_prompt w st)) = heap st ∧
  executed (trace (snd (build_sql_prompt w st))) = executed (trace st) ∧
  ∀ p, fst (build_sql_prompt w st) = Ok p → ∃ schema, p = SqlPrompt schema.
Proof.
  unfold build_sql_prompt. rewrite bind_run.
  destruct (schema_cache st) as [d|] eqn:Ec.
  - rewrite (get_schema_description_hit w d st Ec). simpl.
    repeat split. intros p [= <-]. eauto.
  - rewrite (get_schema_description_miss w st Ec).
    destruct (db_get_table_info w (length (trace st))) as [d|e]; simpl;
      rewrite executed_snoc, app_nil_r; repeat split; try discriminate.
    intros p [= <-]. eauto.
Qed.

Lemma memory_chain_invoke_run {Value : Type} (w : world Value)
    (sql_prompt : list message → pyval → prompt) (question session_id : pyval)
    (st st1 : state) (h : nat) :
  get_memory session_id st = (Ok h, st1) →
  memory_chain_invoke w sql_prompt question session_id st =
    match llm w (length (trace st1))
            (sql_prompt (default [] (heap st1 !! h)) question) with
    | Ok raw =>
        (Ok raw,
         set_heap (alter (fun old => old ++ [HumanMessage question; AIMessage raw]) h)
           (set_trace
              (fun t => t ++ [Model (sql_prompt (default [] (heap st1 !! h)) question)])
              st1))
    | Raise e =>
        (Raise e,
         set_trace
           (fun t => t ++ [Model (sql_prompt (default [] (heap st1 !! h)) question)])
           st1)
    end.
Proof.
  intros H. unfold memory_chain_invoke. rewrite bind_run, H.
  unfold bind, messages, llm_call, add_messages, ret.
  destruct (llm w (length (trace st1)) _); reflexivity.
Qed.

Lemma execute_query_effect {Value : Type} (w : world Value)
    (query : str) (st : state) :
  store (snd (execute_query w query st)) = store st ∧
  heap (snd (execute_query w query st)) = heap st ∧
  executed (trace (snd (execute_query w query st))) = executed (trace st) ++ [query] ∧
  ∃ t, trace (snd (execute_query w query st)) = trace st ++ t.
Proof.
  unfold execute_query, try_except, bind, print, run_call, ret, set_trace.
  cbn [trace].
  destruct (db_run w _ query) as [result|e]; cbn [snd store heap trace];
    rewrite ?executed_snoc, <- ?app_assoc; cbn [executed omap];
    rewrite ?app_nil_r.
  - repeat split. eexists. reflexivity.
  - repeat split. eexists. reflexivity.
Qed.

Lemma process_question_run {Value : Type} (w : world Value)
    (question : pyval) (session_id : option pyval) (st : state) :
  process_question w question session_id st =
    match build_sql_prompt w st with
    | (Raise e, st1) => (Raise e, st1)
    | (Ok sql_prompt, st1) =>
        match memory_chain_invoke w sql_prompt question
                (default (PyStr (lit "user-1")) session_id) st1 with
        | (Raise e, st2) => (Raise e, st2)
        | (Ok raw_sql, st2) =>
            match clean_sql_output raw_sql with
            | Raise e => (Raise e, st2)
            | Ok clean_query =>
                match execute_query w (correct_common_sql_errors clean_query) st2 with
                | (Raise e, st3) => (Raise e, st3)
                | (Ok sql_result, st3) =>
                    rephrase_chain_invoke w question
                      (correct_common_sql_errors clean_query)
                      (py_str w sql_result) st3
                end
            end
        end
    end.
Proof.
  unfold process_question. rewrite bind_run.
  destruct (build_sql_prompt w st) as [[sql_prompt|e] st1]; [|reflexivity].
  rewrite bind_run.
  destruct (memory_chain_invoke w sql_prompt question _ st1) as [[raw|e] st2];
    [|reflexivity].
  rewrite bind_run. unfold lift at 1.
  destruct (clean_sql_output raw) as [c|e]; [|reflexivity].
  rewrite bind_run. reflexivity.
Qed.

(** C3: whatever the model returned, the one statement sent to the
    database is [correct_common_sql_errors] of [clean_sql_output] of it, and
    whatever [execute_query] returned for it, the error record included,
    the answer is the one of the rephrasing stage for the question, that
    statement and the result as text. *)
Theorem process_question_sanitizes_then_rephrases {Value : Type} (w : world Value)
    (question : pyval) (session_id : option pyval) (st st1 st2 : state)
    (sql_prompt : list message → pyval → prompt) (raw_sql : str) :
  build_sql_prompt w st = (Ok sql_prompt, st1) →
  memory_chain_invoke w sql_prompt question
    (default (PyStr (lit "user-1")) session_id) st1 = (Ok raw_sql, st2) →
  ∃ clean_query sql_result st3,
    clean_sql_output raw_sql = Ok clean_query ∧
    execute_query w (correct_common_sql_errors clean_query) st2 = (Ok sql_result, st3) ∧
    process_question w question session_id st
    = rephrase_chain_invoke w question (correct_common_sql_errors clean_query)
        (py_str w sql_result) st3 ∧
    executed (trace (snd (process_question w question session_id st)))
    = executed (trace st) ++ [correct_common_sql_errors clean_query].
Proof.
  intros Hb Hm.
  destruct (clean_sql_output_returns raw_sql) as (c & Hc & _).
  assert (He : ∃ sql_result st3,
            execute_query w (correct_common_sql_errors c) st2 = (Ok sql_result, st3)).
  { rewrite execute_query_run. destruct (db_run w _ _); eauto. }
  destruct He as (sql_result & st3 & He).
  exists c, sql_result, st3. split; [exact Hc|]. split; [exact He|].
  assert (Hrun : process_question w question session_id st
                 = rephrase_chain_invoke w question (correct_common_sql_errors c)
                     (py_str w sql_result) st3).
  { rewrite process_question_run, Hb, Hm, Hc, He. reflexivity. }
  split; [exact Hrun|]. rewrite Hrun.
  unfold rephrase_chain_invoke, llm_call. cbn [snd trace set_trace].
  rewrite executed_snoc, app_nil_r.
  destruct (execute_query_effect w (correct_common_sql_errors c) st2)
    as (_ & _ & Hx & _).
  rewrite He in Hx. cbn [snd] in Hx. rewrite Hx. f_equal.
  destruct (build_sql_prompt_effect w st) as (_ & _ & Hx1 & _).
  rewrite Hb in Hx1. cbn [snd] in Hx1. rewrite <- Hx1.
  unfold memory_chain_invoke in Hm. rewrite bind_run in Hm.
  unfold get_memory in Hm. rewrite bind_run in Hm.
  unfold bind, messages, llm_call, add_messages, ret in Hm.
  repeat case_match; simplify_eq; cbn [trace set_heap set_trace set_store];
    rewrite ?executed_snoc, ?app_nil_r; reflexivity.
Qed.

Lemma process_question_sanitizes_then_rephrases_witness :
  executed (trace (snd (process_question sample_world
                          (PyStr (lit "Who is customer 103?")) None initial_state)))
  = [lit "SELECT customerName FROM clients WHERE customerNumber = 103;"] ∧
  fst (process_question sample_world
         (PyStr (lit "Who is customer 103?")) None initial_state)
  = Ok (lit "The query could not be run: {'error': 'Query failed: Table 'classicmodels.clients' doesn't exist'}").
Proof.
  destruct (process_question_sanitizes_then_rephrases sample_world
              (PyStr (lit "Who is customer 103?")) None initial_state _ _ _ _
              eq_refl eq_refl)
    as (clean_query & sql_result & st3 & Hc & He & Hrun & Hx).
  vm_compute in Hc. injection Hc as <-.
  split.
  - rewrite Hx. reflexivity.
  - rewrite Hrun. vm_compute in He. injection He as <- <-. reflexivity.
Defined.

(** ** Sessions *)

Lemma transcript_same_memory (st st' : state) (k : pyval) :
  store st' = store st → heap st' = heap st → transcript st' k = transcript st k.
Proof. intros Hs Hh. unfold transcript. rewrite Hs, Hh. reflexivity. Qed.

Lemma wf_same_memory (st st' : state) :
  store st' = store st → heap st' = heap st → wf st → wf st'.
Proof. intros Hs Hh. unfold wf. rewrite Hs, Hh. auto. Qed.

(** The session a run of [memory_chain_invoke] reads and appends to. *)
Lemma memory_chain_invoke_session {Value : Type} (w : world Value)
    (sql_prompt : list message → pyval → prompt) (question session_id : pyval)
    (st : state) :
  wf st →
  (∀ k, k ≠ session_id →
     transcript (snd (memory_chain_invoke w sql_prompt question session_id st)) k
     = transcript st k) ∧
  (∀ raw, fst (memory_chain_invoke w sql_prompt question session_id st) = Ok raw →
     transcript (snd (memory_chain_invoke w sql_prompt question session_id st)) session_id
     = Some (default [] (transcript st session_id)
             ++ [HumanMessage question; AIMessage raw]) ∧
     Model (sql_prompt (default [] (transcript st session_id)) question)
       ∈ trace (snd (memory_chain_invoke w sql_prompt question session_id st))).
Proof.
  intros Hwf.
  destruct (get_memory_spec session_id st Hwf)
    as (h & st1 & Hget & [Hlt Hinj] & Hstore & Hheap & Hframe & _ & _).
  rewrite (memory_chain_invoke_run w _ _ _ _ _ _ Hget), Hheap. cbn [default].
  destruct (llm w (length (trace st1)) _) as [raw|e]; cbn [fst snd].
  - split.
    + intros k Hk. rewrite <- (Hframe k Hk). unfold transcript.
      cbn [store heap set_heap set_trace].
      destruct (store st1 !! k) as [h'|] eqn:Ek; [|reflexivity].
      apply list_lookup_alter_ne. intros ->. apply Hk. eauto.
    + intros raw' [= <-]. split.
      * unfold transcript. cbn [store heap set_heap set_trace].
        rewrite Hstore, list_lookup_alter_eq, Hheap. reflexivity.
      * cbn [trace set_heap set_trace]. apply elem_of_app. right.
        apply list_elem_of_here.
  - split; [|discriminate].
    intros k Hk. rewrite <- (Hframe k Hk). reflexivity.
Qed.

Lemma process_question_session {Value : Type} (w : world Value)
    (question session_id : pyval) (st : state) :
  wf st →
  (∀ k, k ≠ session_id →
     transcript (snd (process_question w question (Some session_id) st)) k
     = transcript st k) ∧
  (∀ answer, fst (process_question w question (Some session_id) st) = Ok answer →
     ∃ schema raw,
       Model (SqlPrompt schema (default [] (transcript st session_id)) question)
         ∈ trace (snd (process_question w question (Some session_id) st)) ∧
       transcript (snd (process_question w question (Some session_id) st)) session_id
       = Some (default [] (transcript st session_id)
               ++ [HumanMessage question; AIMessage raw])).
Proof.
  intros Hwf. rewrite process_question_run.
  change (default (PyStr (lit "user-1")) (Some session_id)) with session_id.
  destruct (build_sql_prompt_effect w st) as (Hs0 & Hh0 & _ & Hp).
  destruct (build_sql_prompt w st) as [[sql_prompt|e] st0]; cbn [fst snd] in *.
  2:{ split; [|discriminate]. intros k _. apply transcript_same_memory; assumption. }
  destruct (Hp _ eq_refl) as [schema ->]. clear Hp.
  pose proof (wf_same_memory _ _ Hs0 Hh0 Hwf) as Hwf0.
  destruct (memory_chain_invoke_session w (SqlPrompt schema) question session_id
              st0 Hwf0) as [Hframe0 Happ].
  rewrite (transcript_same_memory st st0) in Happ by assumption.
  assert (Hframe : ∀ k, k ≠ session_id →
            transcript (snd (memory_chain_invoke w (SqlPrompt schema) question
                               session_id st0)) k = transcript st k).
  { intros k Hk. rewrite (Hframe0 k Hk). apply transcript_same_memory; assumption. }
  clear Hframe0.
  destruct (memory_chain_invoke w (SqlPrompt schema) question session_id st0)
    as [[raw|e] st2]; cbn [fst snd] in *.
  2:{ split; [exact Hframe | discriminate]. }
  destruct (Happ _ eq_refl) as [Hsid Htrace]. clear Happ.
  destruct (clean_sql_output raw) as [c|e]; cbn [fst snd].
  2:{ split; [exact Hframe | discriminate]. }
  destruct (execute_query_effect w (correct_common_sql_errors c) st2)
    as (Hs3 & Hh3 & _ & t & Ht).
  destruct (execute_query w (correct_common_sql_errors c) st2)
    as [[r|e] st3]; cbn [fst snd] in *.
  - unfold rephrase_chain_invoke, llm_call. cbn [fst snd].
    split.
    + intros k Hk. rewrite <- (Hframe k Hk). unfold transcript.
      cbn [store heap set_trace]. rewrite Hs3, Hh3. reflexivity.
    + intros answer _. exists schema, raw. split.
      * cbn [trace set_trace]. rewrite Ht. apply elem_of_app. left.
        apply elem_of_app. left. exact Htrace.
      * rewrite <- Hsid. unfold transcript.
        cbn [store heap set_trace]. rewrite Hs3, Hh3. reflexivity.
  - split; [|discriminate].
    intros k Hk. rewrite <- (Hframe k Hk).
    apply transcript_same_memory; assumption.
Qed.

(** C9: called without a session id, [process_question] reads and appends
    to the session ["user-1"] and to no other; the HTTP view, for a body
    without [session_id], reads and appends to the session
    ["default-session"] and to no other; the two keys differ. *)
Theorem default_sessions_differ {Value : Type} (w : world Value)
    (question : pyval) (data : gmap str pyval) (st : state) :
  wf st → data !! lit "session_id" = None →
  let user_1 := PyStr (lit "user-1") in
  let default_session := PyStr (lit "default-session") in
  let asked := default PyNone (data !! lit "question") in
  let run1 := process_question w question None st in
  let run2 := post w data st in
  user_1 ≠ default_session ∧
  (∀ k, k ≠ user_1 → transcript (snd run1) k = transcript st k) ∧
  (∀ answer, fst run1 = Ok answer →
     ∃ schema raw,
       Model (SqlPrompt schema (default [] (transcript st user_1)) question)
         ∈ trace (snd run1) ∧
       transcript (snd run1) user_1
       = Some (default [] (transcript st user_1)
               ++ [HumanMessage question; AIMessage raw])) ∧
  (∀ k, k ≠ default_session → transcript (snd run2) k = transcript st k) ∧
  (∀ body, fst run2 = Ok body →
     ∃ schema raw,
       Model (SqlPrompt schema (default [] (transcript st default_session)) asked)
         ∈ trace (snd run2) ∧
       transcript (snd run2) default_session
       = Some (default [] (transcript st default_session)
               ++ [HumanMessage asked; AIMessage raw])).
Proof.
  intros Hwf Hdata user_1 default_session asked run1 run2.
  split; [discriminate|].
  destruct (process_question_session w question user_1 st Hwf) as [H1 H2].
  destruct (process_question_session w asked default_session st Hwf) as [H3 H4].
  split; [exact H1|]. split; [exact H2|].
  assert (Hrun2 : run2 =
            match process_question w asked (Some default_session) st with
            | (Ok answer, st') => (Ok {[ lit "answer" := answer ]}, st')
            | (Raise e, st') => (Raise e, st')
            end).
  { subst run2. unfold post. rewrite Hdata. reflexivity. }
  rewrite Hrun2.
  destruct (process_question w asked (Some default_session) st) as [[answer|e] st'];
    cbn [fst snd] in *.
  - split; [exact H3|]. intros body _. apply (H4 answer). reflexivity.
  - split; [exact H3 | discriminate].
Qed.

Lemma default_sessions_differ_witness :
  transcript
    (snd (process_question sample_world (PyStr (lit "Who is customer 103?")) None
            initial_state))
    (PyStr (lit "default-session")) = None ∧
  transcript
    (snd (post sample_world {[ lit "question" := PyStr (lit "Who is customer 103?") ]}
            initial_state))
    (PyStr (lit "user-1")) = None.
Proof.
  destruct (default_sessions_differ sample_world (PyStr (lit "Who is customer 103?"))
              {[ lit "question" := PyStr (lit "Who is customer 103?") ]}
              initial_state wf_initial_state)
    as (Hne & H1 & _ & H2 & _).
  - apply lookup_singleton_ne. discriminate.
  - split.
    + rewrite H1; [reflexivity | exact (not_eq_sym Hne)].
    + rewrite H2; [reflexivity | exact Hne].
Defined.

(** * Further properties of the sanitizer *)

Lemma lstrip_fixed_head (c : N) (t : str) :
  lstrip (c :: t) = c :: t → isspace c = false.
Proof.
  simpl. destruct (isspace c); [|reflexivity]. intros H. exfalso.
  destruct (lstrip_suffix t) as [a Ha]. rewrite H in Ha.
  apply (f_equal length) in Ha. rewrite length_app in Ha. simpl in Ha. lia.
Qed.

Lemma strip_head (s : str) (c : N) (t : str) :
  strip s = c :: t → isspace c = false.
Proof.
  intros H. apply (lstrip_fixed_head c t). rewrite <- H. unfold strip.
  apply lstrip_rstrip, lstrip_idem.
Qed.

Lemma strip_last (s : str) (t : str) (c : N) :
  strip s = t ++ [c] → isspace c = false.
Proof.
  unfold strip, rstrip. intros H. apply (f_equal (@rev N)) in H.
  rewrite rev_involutive, rev_app_distr in H. simpl in H.
  apply (lstrip_fixed_head c (rev t)). rewrite <- H. apply lstrip_idem.
Qed.

(** What the sanitizer returns is the trimming of the last piece of the
    split, and that piece ends the text the split is applied to. *)
Lemma clean_sql_output_shape (s : str) :
  ∃ a x, fence_free s = a ++ x ∧ clean_sql_output s = Ok (strip x).
Proof.
  rewrite clean_sql_output_unfold.
  destruct (re_split_1_last (fence_free s)) as (a & x & -> & Hx). eauto.
Qed.

(** X1: the text [clean_sql_output] returns neither begins nor ends with a
    whitespace character. *)
Theorem clean_sql_output_trimmed (s : str) :
  ∃ out, clean_sql_output s = Ok out ∧
    (∀ c t, out = c :: t → isspace c = false) ∧
    (∀ t c, out = t ++ [c] → isspace c = false).
Proof.
  destruct (clean_sql_output_shape s) as (a & x & _ & Hx).
  exists (strip x). split; [exact Hx|]. split.
  - intros c t H. exact (strip_head _ _ _ H).
  - intros t c H. exact (strip_last _ _ _ H).
Qed.

Lemma clean_sql_output_trimmed_witness :
  ∃ out, clean_sql_output ([nl] ++ lit "  SELECT 1;  " ++ [nl]) = Ok out ∧
    ∀ c t, out = c :: t → isspace c = false.
Proof.
  destruct (clean_sql_output_trimmed ([nl] ++ lit "  SELECT 1;  " ++ [nl]))
    as (out & H & Hhead & _).
  exists out. split; [exact H | exact Hhead].
Defined.

Lemma strip_sublist (s : str) : strip s `sublist_of` s.
Proof.
  destruct (strip_factor s) as (a & b & Hs). rewrite Hs at 2.
  apply sublist_inserts_l, sublist_inserts_r. reflexivity.
Qed.

Lemma re_sub_fences_sublist (s : str) : re_sub_fences s `sublist_of` s.
Proof.
  remember (length s) as n eqn:En. revert s En.
  induction n as [n IH] using lt_wf_ind. intros s En.
  rewrite re_sub_fences_unfold.
  destruct (starts_with fence_sql s).
  - destruct s as [|c t]; [reflexivity|].
    transitivity (drop 6 (c :: t)); [|apply sublist_drop].
    apply (IH (length (drop 6 (c :: t)))); [subst n; apply length_drop_lt | reflexivity].
  - destruct (starts_with fence s).
    + destruct s as [|c t]; [reflexivity|].
      transitivity (drop 3 (c :: t)); [|apply sublist_drop].
      apply (IH (length (drop 3 (c :: t)))); [subst n; apply length_drop_lt | reflexivity].
    + destruct s as [|c t]; [reflexivity|].
      apply sublist_skip, (IH (length t)); [subst n; simpl; lia | reflexivity].
Qed.

(** X2: [clean_sql_output] only deletes: what it returns is the input with
    some characters left out, in the same order, so it is never longer
    than the input. *)
Theorem clean_sql_output_only_deletes (s : str) :
  ∃ out, clean_sql_output s = Ok out ∧
    out `sublist_of` s ∧ (length out ≤ length s)%nat.
Proof.
  destruct (clean_sql_output_shape s) as (a & x & Hs & Hx).
  exists (strip x). split; [exact Hx|].
  assert (H : strip x `sublist_of` s).
  { transitivity x; [apply strip_sublist|].
    transitivity (fence_free s); [rewrite Hs; apply sublist_inserts_l; reflexivity|].
    unfold fence_free. transitivity (re_sub_fences (strip s)); [apply strip_sublist|].
    transitivity (strip s); [apply re_sub_fences_sublist | apply strip_sublist]. }
  split; [exact H | apply sublist_length, H].
Qed.

Lemma lstrip_all_space (s : str) : forallb isspace s = true → lstrip s = [].
Proof.
  induction s as [|c s IH]; [reflexivity|]. simpl.
  intros H. apply andb_prop in H as [-> H]. apply IH, H.
Qed.

(** X3: for an input of whitespace only, the empty input included,
    [clean_sql_output] returns the empty text. *)
Theorem clean_sql_output_blank (s : str) :
  forallb isspace s = true → clean_sql_output s = Ok [].
Proof.
  intros H. rewrite clean_sql_output_unfold. unfold fence_free, strip.
  rewrite (lstrip_all_space s H). reflexivity.
Qed.

Lemma clean_sql_output_blank_witness :
  clean_sql_output (lit "  " ++ [nl; 9; 160]) = Ok [].
Proof. apply clean_sql_output_blank. reflexivity. Defined.

Lemma re_split_1_cases (s : str) :
  (has_keyword_line s = false ∧ re_split s 1 = [s]) ∨
  ∃ a b, starts_with_keyword b = true ∧ re_split s 1 = [a; b].
Proof.
  induction s as [|c t IH]; [left; split; reflexivity|].
  rewrite re_split_cons, has_keyword_line_cons.
  destruct (boundary_here (c :: t)) eqn:Hb.
  - right. exists [], t. unfold boundary_here in Hb.
    apply andb_prop in Hb as [_ Hk]. rewrite re_split_0. split; [exact Hk | reflexivity].
  - destruct IH as [[Hk ->] | (a & b & Hk & ->)].
    + left. split; [exact Hk | reflexivity].
    + right. exists (c :: a), b. split; [exact Hk | reflexivity].
Qed.

Lemma keywords_no_space :
  forallb (fun k => (0 <? length k)%nat && forallb (fun a => negb (isspace a)) k)
    keywords = true.
Proof. reflexivity. Qed.

Lemma rstrip_keep_prefix (k r : str) :
  forallb (fun a => negb (isspace a)) k = true →
  rstrip (k ++ r) = k ++ rstrip r.
Proof.
  induction k as [|a k IH]; [reflexivity|]. simpl. intros H.
  apply andb_prop in H as [Ha Hk]. apply negb_true_iff in Ha.
  rewrite rstrip_cons by exact Ha. f_equal. apply IH, Hk.
Qed.

Lemma starts_with_keyword_strip (s : str) :
  starts_with_keyword s = true → starts_with_keyword (strip s) = true.
Proof.
  unfold starts_with_keyword. intros H.
  apply existsb_exists in H as (k & Hin & Hk). apply existsb_exists.
  exists k. split; [exact Hin|].
  pose proof keywords_no_space as Hall. rewrite forallb_forall in Hall.
  specialize (Hall k Hin). apply andb_prop in Hall as [Hne Hns].
  apply starts_with_spec in Hk as [r ->].
  assert (E : strip (k ++ r) = k ++ rstrip r).
  { unfold strip. destruct k as [|a k]; [discriminate|].
    simpl in Hns |- *. apply andb_prop in Hns as [Ha Hns'].
    apply negb_true_iff in Ha. rewrite Ha.
    apply (rstrip_keep_prefix (a :: k)). simpl.
    rewrite Ha, Hns'. reflexivity. }
  rewrite E. apply starts_with_app.
Qed.

(** X4: when the trimmed text without fences has a newline followed by a
    keyword, what [clean_sql_output] returns begins with one of the
    keywords. *)
Theorem clean_sql_output_begins_with_keyword (s : str) :
  has_keyword_line (fence_free s) = true →
  ∃ out, clean_sql_output s = Ok out ∧ starts_with_keyword out = true.
Proof.
  intros H. rewrite clean_sql_output_unfold.
  destruct (re_split_1_cases (fence_free s)) as [[Hk _] | (a & b & Hk & ->)];
    [congruence|].
  exists (strip b). split; [reflexivity|]. apply starts_with_keyword_strip, Hk.
Qed.

Lemma clean_sql_output_begins_with_keyword_witness :
  ∃ out,
    clean_sql_output (lit "Sure, here it is:" ++ nl :: lit "DELETE FROM orders;  ")
    = Ok out ∧ starts_with_keyword out = true.
Proof.
  apply clean_sql_output_begins_with_keyword. reflexivity.
Defined.

Lemma lstrip_app_space (a s : str) :
  forallb isspace a = true → lstrip (a ++ s) = lstrip s.
Proof.
  induction a as [|c a IH]; [reflexivity|]. simpl.
  intros H. apply andb_prop in H as [-> H]. apply IH, H.
Qed.

Lemma lstrip_app_cases (s b : str) :
  forallb isspace b = true →
  (lstrip s = [] ∧ lstrip (s ++ b) = []) ∨
  (lstrip s ≠ [] ∧ lstrip (s ++ b) = lstrip s ++ b).
Proof.
  intros Hb. induction s as [|c s IH]; simpl.
  - left. split; [reflexivity | apply lstrip_all_space, Hb].
  - destruct (isspace c); [exact IH|]. right. split; [discriminate | reflexivity].
Qed.

Lemma forallb_isspace_rev (b : str) :
  forallb isspace b = true → forallb isspace (rev b) = true.
Proof.
  intros H. apply forallb_forall. intros c Hc. apply in_rev in Hc.
  rewrite forallb_forall in H. apply H, Hc.
Qed.

Lemma rstrip_app_space (s b : str) :
  forallb isspace b = true → rstrip (s ++ b) = rstrip s.
Proof.
  intros H. unfold rstrip. rewrite rev_app_distr.
  rewrite lstrip_app_space by (apply forallb_isspace_rev, H). reflexivity.
Qed.

Lemma strip_surrounded (a s b : str) :
  forallb isspace a = true → forallb isspace b = true →
  strip (a ++ s ++ b) = strip s.
Proof.
  intros Ha Hb. unfold strip. rewrite lstrip_app_space by exact Ha.
  destruct (lstrip_app_cases s b Hb) as [[-> ->] | [_ ->]]; [reflexivity|].
  apply rstrip_app_space, Hb.
Qed.

(** X5: whitespace put before and after the input does not change what
    [clean_sql_output] returns. *)
Theorem clean_sql_output_surrounding_space (a s b : str) :
  forallb isspace a = true → forallb isspace b = true →
  clean_sql_output (a ++ s ++ b) = clean_sql_output s.
Proof.
  intros Ha Hb. rewrite !clean_sql_output_unfold. unfold fence_free.
  rewrite strip_surrounded by assumption. reflexivity.
Qed.

Lemma clean_sql_output_surrounding_space_witness :
  clean_sql_output ([nl; 32] ++ (fence ++ lit "SELECT 1;" ++ fence) ++ [32; nl; 13])
  = clean_sql_output (fence ++ lit "SELECT 1;" ++ fence).
Proof.
  apply clean_sql_output_surrounding_space; reflexivity.
Defined.

(** * Further properties of the correction map *)

Lemma starts_with_after_replace (old new : str) (t q : str) :
  old ≠ [] →
  forallb (fun u => negb (clash u new)) (tails q) = true →
  starts_with q (replace old new t) = true → starts_with q t = true.
Proof.
  intros Hold. revert q. induction t as [|c t IH]; intros q Hq H; [exact H|].
  destruct q as [|a q]; [reflexivity|].
  simpl in Hq. apply andb_prop in Hq as [Hc Hq]. apply negb_true_iff in Hc.
  rewrite replace_unfold in H by exact Hold.
  destruct (starts_with old (c :: t)).
  - rewrite (starts_with_clash _ _ _ Hc) in H. discriminate.
  - simpl in H |- *. apply andb_prop in H as [-> H]. simpl. apply IH; assumption.
Qed.

Lemma contains_app_apart (p m y : str) :
  apart_in p m = true → contains p (m ++ y) = contains p y.
Proof.
  unfold apart_in. induction m as [|c m IH]; intros H; [reflexivity|].
  simpl in H. apply andb_prop in H as [Hc Hm]. apply negb_true_iff in Hc.
  rewrite contains_unfold, (starts_with_clash _ _ _ Hc). simpl. apply IH, Hm.
Qed.

(** A word that is replaced, or that was not there, is not in the result,
    when it cannot overlap the text put in. *)
Lemma replace_absent (p old new s : str) :
  old ≠ [] → apart_in p new = true → apart_out p new = true →
  p = old ∨ contains p s = false →
  contains p (replace old new s) = false.
Proof.
  intros Hold Hin Hout. remember (length s) as n eqn:En. revert s En.
  induction n as [n IH] using lt_wf_ind. intros s En Hp.
  rewrite replace_unfold by exact Hold.
  destruct (starts_with old s) eqn:Es.
  - rewrite contains_app_apart by exact Hin.
    destruct s as [|c t]; [rewrite starts_with_nil_r in Es by exact Hold; discriminate|].
    apply (IH (length (drop (length old) (c :: t)))); [|reflexivity|].
    + subst n. destruct old as [|a old]; [congruence|]. apply length_drop_lt.
    + destruct Hp as [Hp|Hp]; [left; exact Hp|]. right.
      apply (contains_false_factor _ _ (take (length old) (c :: t)) _ [] Hp).
      rewrite app_nil_r, take_drop. reflexivity.
  - destruct s as [|c t].
    + destruct Hp as [->|Hp]; [|exact Hp].
      rewrite contains_unfold, Es. reflexivity.
    + assert (Hps : starts_with p (c :: t) = false).
      { destruct Hp as [->|Hp]; [exact Es|].
        rewrite contains_unfold in Hp. apply orb_false_elim in Hp as [Hp _]. exact Hp. }
      rewrite contains_unfold.
      rewrite (IH (length t)); [|subst n; simpl; lia|reflexivity|].
      * rewrite orb_false_r. destruct p as [|a p]; [discriminate|].
        destruct (starts_with (a :: p) (c :: replace old new t)) eqn:E; [|reflexivity].
        simpl in E. apply andb_prop in E as [Eac E].
        apply (starts_with_after_replace old new t p Hold Hout) in E.
        simpl in Hps. rewrite Eac, E in Hps. discriminate.
      * destruct Hp as [Hp|Hp]; [left; exact Hp|]. right.
        rewrite contains_unfold in Hp. apply orb_false_elim in Hp as [_ Hp]. exact Hp.
Qed.

Ltac absent_step :=
  apply replace_absent;
  [ side_condition | reflexivity | reflexivity
  | first [ left; reflexivity | right ] ].

Lemma correct_common_sql_errors_absent (query wrong fixed : str) :
  (wrong, fixed) ∈ corrections →
  contains wrong (correct_common_sql_errors query) = false.
Proof.
  intros Hin. unfold corrections in Hin.
  rewrite correct_common_sql_errors_unfold.
  repeat (apply elem_of_cons in Hin as [[= -> ->] | Hin]);
    [repeat absent_step .. |].
  apply elem_of_nil in Hin. contradiction.
Qed.

(** X6: in what [correct_common_sql_errors] returns, none of the keys of
    the correction map occurs any more. *)
Theorem correct_common_sql_errors_leaves_no_key (query wrong fixed : str) :
  (wrong, fixed) ∈ corrections →
  ∀ a b, correct_common_sql_errors query ≠ a ++ wrong ++ b.
Proof.
  intros Hin a b E.
  pose proof (correct_common_sql_errors_absent query wrong fixed Hin) as H.
  assert (contains wrong (correct_common_sql_errors query) = true)
    by (apply contains_spec; eauto).
  congruence.
Qed.

Lemma correct_common_sql_errors_leaves_no_key_witness :
  correct_common_sql_errors (lit "SELECT customer_order_idid FROM order_details")
  = lit "SELECT customer_orderNumberid FROM orderdetails" ∧
  contains (lit "order_id")
    (correct_common_sql_errors (lit "SELECT customer_order_idid FROM order_details"))
  = false.
Proof.
  split; [reflexivity|].
  destruct (contains (lit "order_id")
              (correct_common_sql_errors
                 (lit "SELECT customer_order_idid FROM order_details"))) eqn:E;
    [|reflexivity].
  apply contains_spec in E as (a & b & E). exfalso.
  apply (correct_common_sql_errors_leaves_no_key
           (lit "SELECT customer_order_idid FROM order_details")
           (lit "order_id") (lit "orderNumber")) with (a := a) (b := b);
    [in_corrections | exact E].
Defined.

(** X7: correcting a corrected statement changes nothing. *)
Theorem correct_common_sql_errors_idempotent (query : str) :
  correct_common_sql_errors (correct_common_sql_errors query)
  = correct_common_sql_errors query.
Proof.
  rewrite (correct_common_sql_errors_unfold (correct_common_sql_errors query)).
  rewrite (replace_no_occurrence (lit "customer_id"))
    by (eapply correct_common_sql_errors_absent; in_corrections).
  rewrite (replace_no_occurrence (lit "order_id"))
    by (eapply correct_common_sql_errors_absent; in_corrections).
  rewrite (replace_no_occurrence (lit "order_details"))
    by (eapply correct_common_sql_errors_absent; in_corrections).
  rewrite (replace_no_occurrence (lit "product_id"))
    by (eapply correct_common_sql_errors_absent; in_corrections).
  rewrite (replace_no_occurrence (lit "products.price"))
    by (eapply correct_common_sql_errors_absent; in_corrections).
  reflexivity.
Qed.

Lemma correct_common_sql_errors_keeps_fence_free (query : str) :
  contains fence query = false →
  contains fence (correct_common_sql_errors query) = false.
Proof.
  intros H. rewrite correct_common_sql_errors_unfold.
  repeat absent_step. exact H.
Qed.

(** X8: sanitizing and then correcting a model output gives a statement in
    which three consecutive backticks do not occur: the correction map
    brings none back. *)
Theorem sanitized_statement_no_fence (raw_sql : str) :
  ∃ clean_query,
    clean_sql_output raw_sql = Ok clean_query ∧
    ∀ a b, correct_common_sql_errors clean_query ≠ a ++ fence ++ b.
Proof.
  destruct (clean_sql_output_returns raw_sql) as (c & Hc & Hf).
  exists c. split; [exact Hc|]. intros a b E.
  pose proof (correct_common_sql_errors_keeps_fence_free c Hf) as H.
  assert (contains fence (correct_common_sql_errors c) = true)
    by (apply contains_spec; eauto).
  congruence.
Qed.

(** * Further properties of the pipeline *)

Lemma introspections_snoc_other (t : list event) (e : event) :
  e ≠ Introspect → introspections (t ++ [e]) = introspections t.
Proof.
  intros H. unfold introspections. rewrite omap_app, length_app.
  destruct e; simpl; try lia. congruence.
Qed.

Lemma model_calls_snoc (t : list event) (p : prompt) :
  model_calls (t ++ [Model p]) = S (model_calls t).
Proof. unfold model_calls. rewrite omap_app, length_app. simpl. lia. Qed.

Lemma model_calls_snoc_other (t : list event) (e : event) :
  (∀ p, e ≠ Model p) → model_calls (t ++ [e]) = model_calls t.
Proof.
  intros H. unfold model_calls. rewrite omap_app, length_app.
  destruct e; simpl; try lia. exfalso. exact (H p eq_refl).
Qed.

(** X9: [execute_query] sends the statement to the database once, as it
    is, whether the run returns or raises; it calls neither the model nor
    the introspection, and leaves the sessions and the schema cache as they
    were. *)
Theorem execute_query_single_run {Value : Type} (w : world Value)
    (query : str) (st : state) :
  executed (trace (snd (execute_query w query st))) = executed (trace st) ++ [query] ∧
  model_calls (trace (snd (execute_query w query st))) = model_calls (trace st) ∧
  introspections (trace (snd (execute_query w query st))) = introspections (trace st) ∧
  store (snd (execute_query w query st)) = store st ∧
  heap (snd (execute_query w query st)) = heap st ∧
  schema_cache (snd (execute_query w query st)) = schema_cache st.
Proof.
  rewrite execute_query_run.
  destruct (db_run w (S (length (trace st))) query) as [result|e];
    cbn [snd trace store heap schema_cache set_trace];
    rewrite ?executed_snoc, ?app_nil_r;
    rewrite ?model_calls_snoc_other, ?introspections_snoc_other by discriminate;
    repeat split; reflexivity.
Qed.

(** X10: the sessions of two different keys are different objects: what is
    appended through the handle of one is not in the transcript of the
    other. *)
Theorem get_memory_isolated (k1 k2 : pyval) (st : state) :
  wf st → k1 ≠ k2 →
  ∃ h1 h2 st1 st2,
    get_memory k1 st = (Ok h1, st1) ∧ get_memory k2 st1 = (Ok h2, st2) ∧
    h1 ≠ h2 ∧
    ∀ ms, transcript (snd (add_messages h1 ms st2)) k2 = transcript st2 k2.
Proof.
  intros Hwf Hne.
  destruct (get_memory_spec k1 st Hwf) as (h1 & st1 & Hg1 & Hwf1 & Hs1 & _).
  destruct (get_memory_spec k2 st1 Hwf1) as (h2 & st2 & Hg2 & Hwf2 & Hs2 & _).
  exists h1, h2, st1, st2. split; [exact Hg1|]. split; [exact Hg2|].
  assert (Hh : h1 ≠ h2).
  { destruct Hwf1 as [Hlt Hinj]. destruct (store st1 !! k2) as [h|] eqn:E.
    - rewrite (get_memory_old _ _ _ E) in Hg2. injection Hg2 as <- _.
      intros ->. apply Hne. eauto.
    - rewrite (get_memory_new _ _ E) in Hg2. injection Hg2 as <- _.
      apply Hlt in Hs1. lia. }
  split; [exact Hh|]. intros ms. unfold transcript, add_messages.
  cbn [snd store heap set_heap]. rewrite Hs2.
  apply list_lookup_alter_ne. exact Hh.
Qed.

Lemma get_memory_isolated_witness :
  ∃ h1 h2 st1 st2,
    get_memory (PyStr (lit "alice")) initial_state = (Ok h1, st1) ∧
    get_memory (PyStr (lit "bob")) st1 = (Ok h2, st2) ∧ h1 ≠ h2.
Proof.
  destruct (get_memory_isolated (PyStr (lit "alice")) (PyStr (lit "bob"))
              initial_state wf_initial_state)
    as (h1 & h2 & st1 & st2 & H1 & H2 & Hne & _); [discriminate|].
  exists h1, h2, st1, st2. auto.
Defined.

(** What a run of [memory_chain_invoke] leaves behind. *)
Lemma memory_chain_invoke_effect {Value : Type} (w : world Value)
    (sql_prompt : list message → pyval → prompt) (question session_id : pyval)
    (st : state) :
  wf st →
  let r := memory_chain_invoke w sql_prompt question session_id st in
  wf (snd r) ∧
  schema_cache (snd r) = schema_cache st ∧
  executed (trace (snd r)) = executed (trace st) ∧
  introspections (trace (snd r)) = introspections (trace st) ∧
  model_calls (trace (snd r)) = S (model_calls (trace st)) ∧
  transcript (snd r) session_id
  = Some (default [] (transcript st session_id)
          ++ match fst r with
             | Ok raw => [HumanMessage question; AIMessage raw]
             | Raise _ => []
             end).
Proof.
  intros Hwf r. subst r.
  destruct (get_memory_spec session_id st Hwf)
    as (h & st1 & Hget & Hwf1 & Hstore & Hheap & _ & Hcache & Htrace).
  rewrite (memory_chain_invoke_run w _ _ _ _ _ _ Hget).
  destruct (llm w (length (trace st1)) _) as [raw|e];
    cbn [fst snd trace schema_cache set_heap set_trace];
    rewrite executed_snoc, app_nil_r, model_calls_snoc,
      introspections_snoc_other, Htrace, Hcache by discriminate.
  - split.
    { destruct Hwf1 as [Hlt Hinj].
      split; cbn [store heap set_heap set_trace]; [|exact Hinj].
      intros key h' H. rewrite length_alter. eauto. }
    repeat split. unfold transcript. cbn [store heap set_heap set_trace].
    rewrite Hstore, list_lookup_alter_eq, Hheap. reflexivity.
  - split; [exact Hwf1|]. repeat split.
    unfold transcript. cbn [store heap set_heap set_trace].
    rewrite Hstore, Hheap, app_nil_r. reflexivity.
Qed.

Lemma build_sql_prompt_counts {Value : Type} (w : world Value) (st : state) :
  model_calls (trace (snd (build_sql_prompt w st))) = model_calls (trace st) ∧
  (∀ d, schema_cache st = Some d →
        build_sql_prompt w st = (Ok (SqlPrompt d), st)) ∧
  (∀ p, fst (build_sql_prompt w st) = Ok p →
        ∃ d, p = SqlPrompt d ∧ schema_cache (snd (build_sql_prompt w st)) = Some d).
Proof.
  unfold build_sql_prompt. rewrite bind_run.
  destruct (schema_cache st) as [d|] eqn:Ec.
  - rewrite (get_schema_description_hit w d st Ec). cbn [fst snd ret].
    split; [reflexivity|]. split.
    + intros d' [= <-]. reflexivity.
    + intros p [= <-]. eauto.
  - rewrite (get_schema_description_miss w st Ec).
    destruct (db_get_table_info w (length (trace st))) as [d|e];
      cbn [fst snd ret trace set_trace set_schema_cache schema_cache];
      rewrite model_calls_snoc_other by discriminate;
      (split; [reflexivity|]); (split; [discriminate|]).
    + intros p [= <-]. eauto.
    + discriminate.
Qed.

(** The stages of a run, one after the other. *)
Lemma process_question_stages {Value : Type} (w : world Value)
    (question : pyval) (session_id : option pyval) (st : state) :
  match build_sql_prompt w st with
  | (Raise e, st1) => process_question w question session_id st = (Raise e, st1)
  | (Ok sql_prompt, st1) =>
      match memory_chain_invoke w sql_prompt question
              (default (PyStr (lit "user-1")) session_id) st1 with
      | (Raise e, st2) => process_question w question session_id st = (Raise e, st2)
      | (Ok raw_sql, st2) =>
          ∃ clean_query,
            clean_sql_output raw_sql = Ok clean_query ∧
            let st' := snd (process_question w question session_id st) in
            store st' = store st2 ∧ heap st' = heap st2 ∧
            schema_cache st' = schema_cache st2 ∧
            introspections (trace st') = introspections (trace st2) ∧
            executed (trace st')
            = executed (trace st2) ++ [correct_common_sql_errors clean_query] ∧
            model_calls (trace st') = S (model_calls (trace st2))
      end
  end.
Proof.
  rewrite process_question_run.
  destruct (build_sql_prompt w st) as [[sql_prompt|e] st1]; [|reflexivity].
  destruct (memory_chain_invoke w sql_prompt question _ st1) as [[raw|e] st2];
    [|reflexivity].
  destruct (clean_sql_output_returns raw) as (c & Hc & _).
  exists c. split; [exact Hc|]. rewrite Hc, execute_query_run.
  unfold rephrase_chain_invoke, llm_call.
  destruct (db_run w (S (length (trace st2))) (correct_common_sql_errors c))
    as [result|e];
    cbn [snd trace store heap schema_cache set_trace];
    rewrite ?executed_snoc, ?app_nil_r, ?model_calls_snoc;
    rewrite ?model_calls_snoc_other, ?introspections_snoc_other by discriminate;
    repeat split; reflexivity.
Qed.

(** The store after a run, whatever its outcome. *)
Lemma process_question_memory {Value : Type} (w : world Value)
    (question : pyval) (session_id : option pyval) (st : state) :
  wf st →
  wf (snd (process_question w question session_id st)) ∧
  ∀ k l, transcript st k = Some l →
    ∃ l', transcript (snd (process_question w question session_id st)) k
          = Some (l ++ l').
Proof.
  intros Hwf. pose proof (process_question_stages w question session_id st) as Hst.
  destruct (build_sql_prompt_effect w st) as (Hs0 & Hh0 & _ & _).
  destruct (build_sql_prompt w st) as [[p|e] st1]; cbn [fst snd] in *.
  2:{ rewrite Hst. cbn [snd]. split; [exact (wf_same_memory _ _ Hs0 Hh0 Hwf)|].
      intros k l H. exists []. rewrite app_nil_r, <- H.
      apply transcript_same_memory; assumption. }
  pose proof (wf_same_memory _ _ Hs0 Hh0 Hwf) as Hwf1.
  set (sid := default (PyStr (lit "user-1")) session_id) in *.
  destruct (memory_chain_invoke_effect w p question sid st1 Hwf1)
    as (Hwf2 & _ & _ & _ & _ & Hsid).
  destruct (memory_chain_invoke_session w p question sid st1 Hwf1) as [Hframe _].
  rewrite (transcript_same_memory st st1) in Hsid by assumption.
  assert (Hmid : ∀ k l, transcript st k = Some l →
            ∃ l', transcript (snd (memory_chain_invoke w p question sid st1)) k
                  = Some (l ++ l')).
  { intros k l H. destruct (decide (k = sid)) as [->|Hk].
    - rewrite Hsid, H. eauto.
    - exists []. rewrite app_nil_r, (Hframe k Hk), <- H.
      apply transcript_same_memory; assumption. }
  clear Hsid Hframe.
  destruct (memory_chain_invoke w p question sid st1) as [[raw|e] st2];
    cbn [fst snd] in *.
  - destruct Hst as (c & _ & Hs & Hh & _).
    split; [exact (wf_same_memory _ _ Hs Hh Hwf2)|].
    intros k l H. destruct (Hmid k l H) as [l' Hl']. exists l'.
    rewrite <- Hl'. apply transcript_same_memory; assumption.
  - rewrite Hst. cbn [snd]. split; [exact Hwf2 | exact Hmid].
Qed.

(** X11: a run of [process_question], whatever its outcome, keeps the store
    well formed and never removes or rewrites a turn: the transcript every
    session had before is the beginning of the one it has after. *)
Theorem process_question_keeps_history {Value : Type} (w : world Value)
    (question : pyval) (session_id : option pyval) (st : state) :
  wf st →
  wf (snd (process_question w question session_id st)) ∧
  ∀ k l, transcript st k = Some l →
    ∃ l', transcript (snd (process_question w question session_id st)) k
          = Some (l ++ l').
Proof.
  intros Hwf.
  destruct (process_question_memory w question session_id st Hwf) as [H1 H2].
  split; [exact H1|]. intros k l Hk. exact (H2 k l Hk).
Qed.

Lemma process_question_keeps_history_witness :
  wf (snd (process_question tired_world (PyStr (lit "How many orders?")) None
             initial_state)).
Proof.
  apply (process_question_keeps_history tired_world (PyStr (lit "How many orders?"))
           None initial_state wf_initial_state).
Defined.

(** X12: when the schema is not cached and the introspection raises,
    [process_question] raises that exception at once: the model is not
    called, no statement is run, no session is created; the introspection
    call is the only thing that happened. *)
Theorem process_question_schema_failure {Value : Type} (w : world Value)
    (question : pyval) (session_id : option pyval) (st : state) (e : str) :
  schema_cache st = None →
  db_get_table_info w (length (trace st)) = Raise e →
  process_question w question session_id st
  = (Raise e, set_trace (fun t => t ++ [Introspect]) st).
Proof.
  intros Hc He. rewrite process_question_run. unfold build_sql_prompt.
  rewrite bind_run, (get_schema_description_miss w st Hc), He. reflexivity.
Qed.

Lemma process_question_schema_failure_witness :
  process_question flaky_world (PyStr (lit "How many orders?")) None initial_state
  = (Raise (lit "Can't connect to MySQL server"),
     set_trace (fun t => t ++ [Introspect]) initial_state).
Proof.
  apply process_question_schema_failure; reflexivity.
Defined.

(** X13: when the model call of the generation stage raises,
    [process_question] raises that exception; no statement is sent to the
    database, the rephrasing stage is not reached, and the session exists
    afterwards with the transcript it had, the question not recorded. *)
Theorem process_question_generation_failure {Value : Type} (w : world Value)
    (question : pyval) (session_id : option pyval) (st : state)
    (sql_prompt : list message → pyval → prompt) (e : str) :
  wf st →
  fst (build_sql_prompt w st) = Ok sql_prompt →
  fst (memory_chain_invoke w sql_prompt question
         (default (PyStr (lit "user-1")) session_id)
         (snd (build_sql_prompt w st))) = Raise e →
  fst (process_question w question session_id st) = Raise e ∧
  executed (trace (snd (process_question w question session_id st)))
  = executed (trace st) ∧
  model_calls (trace (snd (process_question w question session_id st)))
  = S (model_calls (trace st)) ∧
  transcript (snd (process_question w question session_id st))
    (default (PyStr (lit "user-1")) session_id)
  = Some (default [] (transcript st (default (PyStr (lit "user-1")) session_id))).
Proof.
  intros Hwf Hb Hm.
  pose proof (process_question_stages w question session_id st) as Hst.
  destruct (build_sql_prompt_effect w st) as (Hs0 & Hh0 & Hx0 & _).
  destruct (build_sql_prompt_counts w st) as (Hm0 & _ & _).
  destruct (build_sql_prompt w st) as [[p|e0] st1]; cbn [fst snd] in *;
    [|discriminate].
  injection Hb as ->.
  pose proof (wf_same_memory _ _ Hs0 Hh0 Hwf) as Hwf1.
  set (sid := default (PyStr (lit "user-1")) session_id) in *.
  destruct (memory_chain_invoke_effect w sql_prompt question sid st1 Hwf1)
    as (_ & _ & Hx & _ & Hmc & Hsid).
  rewrite (transcript_same_memory st st1) in Hsid by assumption.
  destruct (memory_chain_invoke w sql_prompt question sid st1) as [[raw|e1] st2];
    cbn [fst snd] in *; [discriminate|].
  injection Hm as ->. rewrite Hst. cbn [fst snd].
  rewrite Hx, Hx0, Hmc, Hm0, Hsid, app_nil_r. repeat split.
Qed.

Lemma process_question_generation_failure_witness :
  fst (process_question mute_world (PyStr (lit "How many orders?")) None initial_state)
  = Raise (lit "Connection error.") ∧
  transcript
    (snd (process_question mute_world (PyStr (lit "How many orders?")) None
            initial_state))
    (PyStr (lit "user-1")) = Some [].
Proof.
  destruct (process_question_generation_failure mute_world
              (PyStr (lit "How many orders?")) None initial_state
              (SqlPrompt sample_schema) (lit "Connection error.")
              wf_initial_state eq_refl eq_refl) as (H1 & _ & _ & H2).
  split; [exact H1 | exact H2].
Defined.

(** X14: once the generation stage has returned, the question and the raw
    model output are in the transcript of the session and the statement has
    been run, whatever becomes of the rest of the run, a failure of the
    rephrasing stage included. *)
Theorem process_question_records_exchange {Value : Type} (w : world Value)
    (question : pyval) (session_id : option pyval) (st : state)
    (sql_prompt : list message → pyval → prompt) (raw_sql : str) :
  wf st →
  fst (build_sql_prompt w st) = Ok sql_prompt →
  fst (memory_chain_invoke w sql_prompt question
         (default (PyStr (lit "user-1")) session_id)
         (snd (build_sql_prompt w st))) = Ok raw_sql →
  transcript (snd (process_question w question session_id st))
    (default (PyStr (lit "user-1")) session_id)
  = Some (default [] (transcript st (default (PyStr (lit "user-1")) session_id))
          ++ [HumanMessage question; AIMessage raw_sql]) ∧
  model_calls (trace (snd (process_question w question session_id st)))
  = S (S (model_calls (trace st))) ∧
  ∃ clean_query,
    clean_sql_output raw_sql = Ok clean_query ∧
    executed (trace (snd (process_question w question session_id st)))
    = executed (trace st) ++ [correct_common_sql_errors clean_query].
Proof.
  intros Hwf Hb Hm.
  pose proof (process_question_stages w question session_id st) as Hst.
  destruct (build_sql_prompt_effect w st) as (Hs0 & Hh0 & Hx0 & _).
  destruct (build_sql_prompt_counts w st) as (Hm0 & _ & _).
  destruct (build_sql_prompt w st) as [[p|e0] st1]; cbn [fst snd] in *;
    [|discriminate].
  injection Hb as ->.
  pose proof (wf_same_memory _ _ Hs0 Hh0 Hwf) as Hwf1.
  set (sid := default (PyStr (lit "user-1")) session_id) in *.
  destruct (memory_chain_invoke_effect w sql_prompt question sid st1 Hwf1)
    as (_ & _ & Hx & _ & Hmc & Hsid).
  rewrite (transcript_same_memory st st1) in Hsid by assumption.
  destruct (memory_chain_invoke w sql_prompt question sid st1) as [[raw|e1] st2];
    cbn [fst snd] in *; [|discriminate].
  injection Hm as ->.
  destruct Hst as (c & Hc & Hs & Hh & _ & _ & Hx' & Hmc').
  split; [|split].
  - rewrite <- Hsid. apply transcript_same_memory; assumption.
  - rewrite Hmc', Hmc, Hm0. reflexivity.
  - exists c. split; [exact Hc|]. rewrite Hx', Hx, Hx0. reflexivity.
Qed.

Lemma process_question_records_exchange_witness :
  fst (process_question tired_world (PyStr (lit "How many orders?")) None initial_state)
  = Raise (lit "Rate limit reached.") ∧
  transcript
    (snd (process_question tired_world (PyStr (lit "How many orders?")) None
            initial_state))
    (PyStr (lit "user-1"))
  = Some [HumanMessage (PyStr (lit "How many orders?")); AIMessage (lit "SELECT 1;")].
Proof.
  split; [reflexivity|].
  destruct (process_question_records_exchange tired_world
              (PyStr (lit "How many orders?")) None initial_state
              (SqlPrompt sample_schema) (lit "SELECT 1;")
              wf_initial_state eq_refl eq_refl) as (H & _).
  exact H.
Defined.

(** What [memory_chain_invoke] does outside the sessions. *)
Lemma memory_chain_invoke_outside {Value : Type} (w : world Value)
    (sql_prompt : list message → pyval → prompt) (question session_id : pyval)
    (st : state) :
  let st' := snd (memory_chain_invoke w sql_prompt question session_id st) in
  schema_cache st' = schema_cache st ∧
  introspections (trace st') = introspections (trace st) ∧
  executed (trace st') = executed (trace st) ∧
  (model_calls (trace st') ≤ S (model_calls (trace st)))%nat.
Proof.
  unfold memory_chain_invoke, get_memory. rewrite !bind_run.
  destruct (decide (store st !! session_id = None)) as [Hn|Hn];
    cbn [store set_store set_heap].
  - rewrite lookup_insert_eq. unfold bind, messages, llm_call, add_messages, ret.
    destruct (llm w _ _);
      cbn [snd trace schema_cache set_store set_heap set_trace];
      rewrite executed_snoc, app_nil_r, model_calls_snoc,
        introspections_snoc_other by discriminate;
      repeat split; lia.
  - destruct (store st !! session_id) as [h|]; [|cbn [snd]; repeat split; lia].
    unfold bind, messages, llm_call, add_messages, ret.
    destruct (llm w _ _);
      cbn [snd trace schema_cache set_store set_heap set_trace];
      rewrite executed_snoc, app_nil_r, model_calls_snoc,
        introspections_snoc_other by discriminate;
      repeat split; lia.
Qed.

Lemma build_sql_prompt_introspections {Value : Type} (w : world Value) (st : state) :
  (introspections (trace (snd (build_sql_prompt w st)))
   ≤ S (introspections (trace st)))%nat.
Proof.
  unfold build_sql_prompt. rewrite bind_run.
  destruct (schema_cache st) as [d|] eqn:Ec.
  - rewrite (get_schema_description_hit w d st Ec). cbn [snd ret]. lia.
  - rewrite (get_schema_description_miss w st Ec).
    destruct (db_get_table_info w (length (trace st)));
      cbn [snd ret trace set_trace set_schema_cache];
      rewrite introspections_snoc; lia.
Qed.

(** X15: with a cached schema description, a run of [process_question]
    issues no introspection, whatever the database would answer now, and
    leaves the cached description as it is. *)
Theorem process_question_warm_cache {Value : Type} (w : world Value)
    (question : pyval) (session_id : option pyval) (st : state) (d : str) :
  schema_cache st = Some d →
  schema_cache (snd (process_question w question session_id st)) = Some d ∧
  introspections (trace (snd (process_question w question session_id st)))
  = introspections (trace st).
Proof.
  intros Hc. pose proof (process_question_stages w question session_id st) as Hst.
  destruct (build_sql_prompt_counts w st) as (_ & Hhit & _).
  rewrite (Hhit d Hc) in Hst.
  set (sid := default (PyStr (lit "user-1")) session_id) in *.
  destruct (memory_chain_invoke_outside w (SqlPrompt d) question sid st)
    as (Hc2 & Hi2 & _ & _).
  destruct (memory_chain_invoke w (SqlPrompt d) question sid st) as [[raw|e] st2];
    cbn [snd] in *.
  - destruct Hst as (c & _ & _ & _ & Hc3 & Hi3 & _).
    rewrite Hc3, Hi3, Hc2, Hi2. split; [exact Hc | reflexivity].
  - rewrite Hst. cbn [snd]. rewrite Hc2, Hi2. split; [exact Hc | reflexivity].
Qed.

Lemma process_question_warm_cache_witness :
  introspections
    (trace (snd (process_question flaky_world (PyStr (lit "How many orders?")) None
                   (set_schema_cache (Some (lit "CREATE TABLE orders (orderNumber int)"))
                      initial_state))))
  = O.
Proof.
  destruct (process_question_warm_cache flaky_world (PyStr (lit "How many orders?"))
              None
              (set_schema_cache (Some (lit "CREATE TABLE orders (orderNumber int)"))
                 initial_state)
              (lit "CREATE TABLE orders (orderNumber int)") eq_refl) as [_ H].
  rewrite H. reflexivity.
Defined.

(** X16: two runs of [process_question] for the same session, both
    returning an answer: the model is given, for the second question, the
    transcript with the first question and the first raw output at its end,
    and afterwards the transcript holds both exchanges in the order of the
    runs. *)
Theorem process_question_second_run_sees_first {Value : Type} (w : world Value)
    (q1 q2 session_id : pyval) (st : state) (a1 a2 : str) :
  wf st →
  let st1 := snd (process_question w q1 (Some session_id) st) in
  let st2 := snd (process_question w q2 (Some session_id) st1) in
  fst (process_question w q1 (Some session_id) st) = Ok a1 →
  fst (process_question w q2 (Some session_id) st1) = Ok a2 →
  ∃ schema raw1 raw2,
    Model (SqlPrompt schema
             (default [] (transcript st session_id)
              ++ [HumanMessage q1; AIMessage raw1]) q2) ∈ trace st2 ∧
    transcript st2 session_id
    = Some (default [] (transcript st session_id)
            ++ [HumanMessage q1; AIMessage raw1; HumanMessage q2; AIMessage raw2]).
Proof.
  intros Hwf st1 st2 H1 H2.
  destruct (process_question_session w q1 session_id st Hwf) as [_ Hr1].
  destruct (Hr1 a1 H1) as (schema1 & raw1 & _ & Ht1).
  destruct (process_question_memory w q1 (Some session_id) st Hwf) as [Hwf1 _].
  destruct (process_question_session w q2 session_id st1 Hwf1) as [_ Hr2].
  destruct (Hr2 a2 H2) as (schema2 & raw2 & Hm2 & Ht2).
  fold st1 in Ht1. rewrite Ht1 in Hm2, Ht2.
  cbn [from_option] in Hm2, Ht2. unfold id in Hm2, Ht2.
  exists schema2, raw1, raw2. split; [exact Hm2|].
  fold st2 in Ht2. rewrite Ht2, <- app_assoc. reflexivity.
Qed.

Lemma process_question_second_run_sees_first_witness :
  ∃ schema raw1 raw2,
    transcript
      (snd (process_question sample_world (PyStr (lit "And customer 112?"))
              (Some (PyStr (lit "s1")))
              (snd (process_question sample_world (PyStr (lit "Who is customer 103?"))
                      (Some (PyStr (lit "s1"))) initial_state))))
      (PyStr (lit "s1"))
    = Some [HumanMessage (PyStr (lit "Who is customer 103?")); AIMessage raw1;
            HumanMessage (PyStr (lit "And customer 112?")); AIMessage raw2] ∧
    Model (SqlPrompt schema
             [HumanMessage (PyStr (lit "Who is customer 103?")); AIMessage raw1]
             (PyStr (lit "And customer 112?")))
      ∈ trace
          (snd (process_question sample_world (PyStr (lit "And customer 112?"))
                  (Some (PyStr (lit "s1")))
                  (snd (process_question sample_world
                          (PyStr (lit "Who is customer 103?"))
                          (Some (PyStr (lit "s1"))) initial_state)))).
Proof.
  destruct (process_question_second_run_sees_first sample_world
              (PyStr (lit "Who is customer 103?")) (PyStr (lit "And customer 112?"))
              (PyStr (lit "s1")) initial_state _ _ wf_initial_state eq_refl eq_refl)
    as (schema & raw1 & raw2 & Hm & Ht).
  exists schema, raw1, raw2. split; [exact Ht | exact Hm].
Defined.

(** X17: a run of [process_question], whatever its outcome, calls the model
    at most twice, sends at most one statement to the database and issues
    at most one introspection. *)
Theorem process_question_call_budget {Value : Type} (w : world Value)
    (question : pyval) (session_id : option pyval) (st : state) :
  let st' := snd (process_question w question session_id st) in
  (model_calls (trace st') ≤ model_calls (trace st) + 2)%nat ∧
  (length (executed (trace st')) ≤ length (executed (trace st)) + 1)%nat ∧
  (introspections (trace st') ≤ introspections (trace st) + 1)%nat.
Proof.
  pose proof (process_question_stages w question session_id st) as Hst.
  destruct (build_sql_prompt_effect w st) as (_ & _ & Hx0 & _).
  destruct (build_sql_prompt_counts w st) as (Hm0 & _ & _).
  pose proof (build_sql_prompt_introspections w st) as Hi0.
  destruct (build_sql_prompt w st) as [[p|e] st1]; cbn [fst snd] in *.
  2:{ rewrite Hst. cbn [snd]. rewrite Hx0, Hm0. repeat split; lia. }
  set (sid := default (PyStr (lit "user-1")) session_id) in *.
  destruct (memory_chain_invoke_outside w p question sid st1)
    as (_ & Hi2 & Hx2 & Hm2).
  destruct (memory_chain_invoke w p question sid st1) as [[raw|e] st2];
    cbn [snd] in *.
  - destruct Hst as (c & _ & _ & _ & _ & Hi3 & Hx3 & Hm3).
    cbv zeta. rewrite Hi3, Hx3, Hm3, Hi2, Hx2, Hx0, length_app. simpl.
    repeat split; lia.
  - cbv zeta. rewrite Hst. cbn [snd]. rewrite Hi2, Hx2, Hx0. repeat split; lia.
Qed.

(** X18: when [build_sql_prompt] has returned a template in a run of
    [process_question], the schema description in that template is the one
    cached when the run ends, whatever became of the later stages. *)
Theorem process_question_caches_schema {Value : Type} (w : world Value)
    (question : pyval) (session_id : option pyval) (st : state)
    (sql_prompt : list message → pyval → prompt) :
  fst (build_sql_prompt w st) = Ok sql_prompt →
  ∃ d, sql_prompt = SqlPrompt d ∧
       schema_cache (snd (process_question w question session_id st)) = Some d.
Proof.
  intros Hb. pose proof (process_question_stages w question session_id st) as Hst.
  destruct (build_sql_prompt_counts w st) as (_ & _ & Hp).
  destruct (Hp _ Hb) as (d & -> & Hc). exists d. split; [reflexivity|].
  destruct (build_sql_prompt w st) as [[p|e] st1]; cbn [fst snd] in *;
    [|discriminate].
  injection Hb as ->.
  set (sid := default (PyStr (lit "user-1")) session_id) in *.
  destruct (memory_chain_invoke_outside w (SqlPrompt d) question sid st1)
    as (Hc2 & _).
  destruct (memory_chain_invoke w (SqlPrompt d) question sid st1) as [[raw|e] st2];
    cbn [snd] in *.
  - destruct Hst as (c & _ & _ & _ & Hc3 & _). rewrite Hc3, Hc2. exact Hc.
  - rewrite Hst. cbn [snd]. rewrite Hc2. exact Hc.
Qed.

Lemma process_question_caches_schema_witness :
  schema_cache
    (snd (process_question mute_world (PyStr (lit "How many orders?")) None
            initial_state))
  = Some sample_schema.
Proof.
  destruct (process_question_caches_schema mute_world (PyStr (lit "How many orders?"))
              None initial_state (SqlPrompt sample_schema) eq_refl)
    as (d & Hd & Hc).
  apply (f_equal (fun f => f [] PyNone)) in Hd. injection Hd as <-. exact Hc.
Defined.
